(** * Asset minification script [bin/minify_assets.py]

    A shallow embedding of the [Minifier] class and the properties its
    specification states.  The Python built-ins the script relies on are
    modelled first (text operations, the one regular expression it builds,
    binary64 arithmetic, keyword-argument binding), then the class itself,
    then the theorems. *)

From stdpp Require Import gmap strings list fin_maps.
From Stdlib Require Import Ascii String ZArith Lia SpecFloat.

#[local] Set Warnings "-register-all".
Local Open Scope Z_scope.

(** ** Python text operations *)

Module Str.

(** [c in s] for a one-character [c]. *)
Fixpoint contains (c : ascii) (s : string) : bool :=
  match s with
  | EmptyString => false
  | String d s' => Ascii.eqb c d || contains c s'
  end.

(** [s.rsplit(c, 1)[-1]]: the text after the last [c], all of [s] when [c]
    does not occur. *)
Fixpoint rsplit_last (c : ascii) (s : string) : string :=
  match s with
  | EmptyString => EmptyString
  | String d s' =>
      if contains c s' then rsplit_last c s'
      else if Ascii.eqb c d then s' else s
  end.

(** [s.endswith(suf)]. *)
Fixpoint endswith (s suf : string) : bool :=
  String.eqb s suf ||
  match s with
  | EmptyString => false
  | String _ s' => endswith s' suf
  end.

(** [os.path.basename] of posixpath: [p[p.rfind("/") + 1:]]. *)
Definition basename (p : string) : string := rsplit_last "/" p.

(** [len(s)] as a Python int. *)
Definition len (s : string) : Z := Z.of_nat (String.length s).

(** Splits off the last character. *)
Fixpoint unsnoc (s : string) : option (string * ascii) :=
  match s with
  | EmptyString => None
  | String c s' =>
      match unsnoc s' with
      | None => Some (EmptyString, c)
      | Some (i, l) => Some (String c i, l)
      end
  end.

Fixpoint forallb (f : ascii -> bool) (s : string) : bool :=
  match s with
  | EmptyString => true
  | String c s' => f c && forallb f s'
  end.

End Str.

(** ** Regular expressions of the shape [\.<literal>$]

    [_execute] builds the pattern [f"\\.{ext}$"].  When [ext] holds no
    character that is special in a pattern, the pattern is an escaped dot,
    the literal text [ext] and the anchor [$]; [re.sub] then rewrites the
    occurrence of [.ext] on which the text ends, where [$] holds at the end
    of the text and also just before a newline that ends it. *)

Module Re.

Definition newline : ascii := Ascii.ascii_of_nat 10.

(** Characters with a meaning of their own in a pattern or, for the
    backslash, in a replacement template. *)
Definition special (c : ascii) : bool :=
  Str.contains c ".^$*+?{}[]\|()".

Definition literal (s : string) : bool :=
  Str.forallb (fun c => negb (special c)) s.

(** [re.sub] for the literal [lit] followed by [$], [lit] not empty: texts
    are scanned from the left, the match at a position is [lit] followed by
    the end of the text or by its final newline. *)
Fixpoint sub_literal_eol (lit repl s : string) : string :=
  if String.eqb s lit then repl
  else if String.eqb s (lit +:+ String newline EmptyString) then
    repl +:+ (if String.eqb lit (String newline EmptyString) then repl
             else String newline EmptyString)
  else
    match s with
    | EmptyString => EmptyString
    | String c s' => String c (sub_literal_eol lit repl s')
    end.

(** Reads a pattern of the shape [\.<literal>$] back into [.<literal>]. *)
Definition parse_dot_literal_eol (pattern : string) : option string :=
  match pattern with
  | String "\" (String "." rest) =>
      match Str.unsnoc rest with
      | Some (lit, "$"%char) =>
          if literal lit then Some (String "." lit) else None
      | _ => None
      end
  | _ => None
  end.

End Re.

(** ** Python numbers: ints as [Z], floats as binary64 *)

Inductive exn :=
  | TypeError
  | OSError
  | ZeroDivisionError
  | OverflowError
  | ValueError
  | ReError.

Module Num.

Definition prec : Z := 53.
Definition emax : Z := 1024.

(** An int as an exact operand of a division: the mantissa is the int's
    absolute value, however long. *)
Definition exact (z : Z) : spec_float :=
  match z with
  | Z0 => S754_zero false
  | Zpos p => S754_finite false p 0
  | Zneg p => S754_finite true p 0
  end.

Definition finite_or_overflow (f : spec_float) : exn + spec_float :=
  match f with
  | S754_infinity _ | S754_nan => inl OverflowError
  | _ => inr f
  end.

(** [a / b] on ints: the correctly rounded quotient, [OverflowError] when it
    does not fit a float. *)
Definition int_truediv (a b : Z) : exn + spec_float :=
  if Z.eqb b 0 then inl ZeroDivisionError
  else finite_or_overflow (SFdiv prec emax (exact a) (exact b)).

(** [int(x)] on a float: truncation toward zero. *)
Definition int_of_float (x : spec_float) : exn + Z :=
  match x with
  | S754_zero _ => inr 0
  | S754_infinity _ => inl OverflowError
  | S754_nan => inl ValueError
  | S754_finite s m e =>
      let a := match e with
               | Zneg k => Z.shiftr (Zpos m) (Zpos k)
               | _ => Z.shiftl (Zpos m) e
               end in
      inr (if s then - a else a)
  end.

(** The float an int operand is converted to in mixed arithmetic. *)
Definition float_of_int (z : Z) : exn + spec_float :=
  finite_or_overflow (binary_normalize prec emax z 0 false).

(** [x / y] on floats. *)
Definition float_truediv (x y : spec_float) : exn + spec_float :=
  match y with
  | S754_zero _ => inl ZeroDivisionError
  | _ => inr (SFdiv prec emax x y)
  end.

(** The literal [10.0]. *)
Definition ten : spec_float := S754_finite false 5629499534213120 (-49).

(** [k / 10.0] for an int [k]. *)
Definition tenths (k : Z) : exn + spec_float :=
  match float_of_int k with
  | inl e => inl e
  | inr f => float_truediv f ten
  end.

(** [int(1000 * m / s)]. *)
Definition per_mille (m s : Z) : exn + Z :=
  match int_truediv (1000 * m) s with
  | inl e => inl e
  | inr q => int_of_float q
  end.

(** [int(1000 * m / s) / 10.0], the percentage [_execute] reports for a
    minified length [m] and a source length [s]. *)
Definition percent (m s : Z) : exn + spec_float :=
  match per_mille m s with
  | inl e => inl e
  | inr k => tenths k
  end.

(** What the specification asks of the percentage: the floor of the exact
    quotient, then the division by ten. *)
Definition spec_per_mille (m s : Z) : Z := (1000 * m) / s.

Definition spec_percent (m s : Z) : exn + spec_float :=
  tenths (spec_per_mille m s).

(** [f] is a normal binary64 number whose distance to [k / 10] is at
    most half a unit in its last place, as the rounding of [k / 10] is. *)
Definition half_ulp_of_tenths (f : spec_float) (k : Z) : Prop :=
  match f with
  | S754_finite false m (Zneg e) =>
      Z.pos (Pos.size m) = prec /\
      2 * Z.abs (10 * Z.pos m - k * 2 ^ Z.pos e) <= 10
  | _ => False
  end.

(** The float that rounding arrives at from a mantissa [M], at most
    [2 ^ 53], and an exponent [e]. *)
Definition pack (M e : Z) : spec_float :=
  if Z.eqb M 0 then S754_zero false
  else if Z.ltb M (2 ^ 53) then
    if Z.leb e 971 then S754_finite false (Z.to_pos M) e
    else S754_infinity false
  else
    if Z.leb (e + 1) 971 then S754_finite false (Z.to_pos (2 ^ 52)) (e + 1)
    else S754_infinity false.

(** When rounding to nearest adds one to the mantissa [mx / 2 ^ n]: the
    part cut off is at least half a unit. *)
Definition rounds_up (mx n : Z) (lx : location) : Prop :=
  (n = 0 ∧ (lx = loc_Inexact Eq ∨ lx = loc_Inexact Gt)) ∨
  (0 < n ∧ Z.odd (mx / 2 ^ (n - 1)) = true).

(** Lengths of Python strings are bounded by [sys.maxsize]. *)
Definition maxsize : Z := 2 ^ 63 - 1.

End Num.

(** ** Values read from the JSON configuration *)

Inductive json :=
  | JNull
  | JBool (b : bool)
  | JInt (z : Z)
  | JFloat (f : spec_float)
  | JString (s : string)
  | JArray (l : list json)
  | JObject (kw : gmap string json).

(** Truth value of an object, as [if not x] tests it. *)
Definition truthy (v : json) : bool :=
  match v with
  | JNull => false
  | JBool b => b
  | JInt z => negb (Z.eqb z 0)
  | JFloat (S754_zero _) => false
  | JFloat _ => true
  | JString s => negb (String.eqb s "")
  | JArray [] => false
  | JArray _ => true
  | JObject kw => negb (bool_decide (kw = ∅))
  end.

(** ** Dicts that keep insertion order *)

Module Dict.

(** [d[k] = v]: an existing key keeps its place. *)
Fixpoint set {V} (k : string) (v : V) (d : list (string * V)) : list (string * V) :=
  match d with
  | [] => [(k, v)]
  | (k', v') :: d' =>
      if String.eqb k k' then (k, v) :: d' else (k', v') :: set k v d'
  end.

(** [d.get(k)]. *)
Fixpoint get {V} (k : string) (d : list (string * V)) : option V :=
  match d with
  | [] => None
  | (k', v') :: d' => if String.eqb k k' then Some v' else get k d'
  end.

Definition keys {V} (d : list (string * V)) : list string := d.*1.

End Dict.

(** ** The file system, the console and the monad of the script *)

Inductive out_line :=
  | Line (text : string)
  | Summary (target : string) (source_len minified_len : Z) (percent : spec_float).

(** What a run does to its environment, in the order it does it.  A call of
    [glob] records the files it could see. *)
Inductive event :=
  | EGlob (pattern : string) (seen : gmap string string)
  | ERead (path : string)
  | EWrite (path content : string)
  | EPrint (l : out_line).

(** The regular files with their text, and the events so far.  Paths that
    are not regular files (directories) are not in [files]. *)
Record world := World {
  files : gmap string string;
  trace : list event
}.

Definition M (A : Type) : Type := world → (exn + A) * world.

#[global] Instance M_ret : MRet M := λ A x w, (inr x, w).

#[global] Instance M_bind : MBind M := λ A B f m w,
  match m w with
  | (inl e, w') => (inl e, w')
  | (inr x, w') => f x w'
  end.

(** A result of pure code: an exception is raised, a value returned. *)
Definition lift {A} (r : exn + A) : M A := λ w, (r, w).

Definition emit (e : event) : M unit := λ w,
  (inr (), World (files w) (trace w ++ [e])).

(** [for x in l: yield from f(x)]. *)
Fixpoint for_yield {A B} (f : A → M (list B)) (l : list A) : M (list B) :=
  match l with
  | [] => mret []
  | x :: l' => ys ← f x; zs ← for_yield f l'; mret (ys ++ zs)
  end.

(** [for x in l: f(x)]. *)
Fixpoint for_each {A} (f : A → M unit) (l : list A) : M unit :=
  match l with
  | [] => mret ()
  | x :: l' => f x;; for_each f l'
  end.

(** [os.path.isfile]. *)
Definition isfile (p : string) : M bool := λ w,
  (inr (bool_decide (is_Some (files w !! p))), w).

(** [with open(p) as handle: handle.read()]. *)
Definition open_read (p : string) : M string := λ w,
  match files w !! p with
  | Some c => (inr c, World (files w) (trace w ++ [ERead p]))
  | None => (inl OSError, w)
  end.

(** [with open(p, "w") as handle: handle.write(c)]. *)
Definition open_write (p c : string) : M unit := λ w,
  (inr (), World (<[p := c]> (files w)) (trace w ++ [EWrite p c])).

Definition print (l : out_line) : M unit := emit (EPrint l).

(** ** The libraries the script calls *)

Class Externals := {
  (** [glob(pattern, recursive=True)] over the files present. *)
  glob : gmap string string → string → list string;
  jsmin : string → string;
  cssmin : string → string;
  (** [htmlmin.minify(content, remove_comments, remove_empty_space)]. *)
  htmlmin : string → bool → bool → string;
  (** [re.sub] on the patterns that are not of the shape [\.<literal>$]. *)
  re_engine : string → string → string → exn + string
}.

(** ** The class [Minifier] *)

Module Minifier.
Section WithExternals.
Context {Ext : Externals}.

Definition handler : Type := string → string.
Definition task : Type := string * handler * json.

Definition do_glob (pattern : string) : M (list string) := λ w,
  (inr (glob (files w) pattern),
   World (files w) (trace w ++ [EGlob pattern (files w)])).

(** [re.sub(pattern, repl, s)]. *)
Definition re_sub (pattern repl s : string) : exn + string :=
  match Re.parse_dot_literal_eol pattern with
  | Some lit =>
      if Str.contains "\" repl then re_engine pattern repl s
      else inr (Re.sub_literal_eol lit repl s)
  | None => re_engine pattern repl s
  end.

(** [f"{ext}"] for an [ext] that may be [None]. *)
Definition fmt (ext : option string) : string := default "None" ext.

Definition _htmlmin (content : string) : string := htmlmin content true true.

Definition handlers : list (string * handler) :=
  [("js", jsmin); ("css", cssmin); ("html", _htmlmin); ("jinja2", _htmlmin)].

(** [cls.handlers.get(ext)]. *)
Definition handlers_get (ext : option string) : option handler :=
  match ext with
  | None => None
  | Some e => Dict.get e handlers
  end.

Definition _ext (filename : string) : M (option string) :=
  f ← isfile filename;
  if negb f then mret None
  else
    let base := Str.basename filename in
    if negb (Str.contains "." base) then mret None
    else mret (Some (Str.rsplit_last "." base)).

(** The body of the inner loop of [_find_files]: what one file name yields. *)
Definition select (settings : json) (filename : string) : M (list task) :=
  ext ← _ext filename;
  if Str.endswith filename (".min." +:+ fmt ext) then mret []
  else
    match handlers_get ext with
    | None => mret []
    | Some h => mret [(filename, h, settings)]
    end.

Definition _find_files (instructions : list (string * json)) : M (list task) :=
  for_yield (λ '(pattern, settings),
               names ← do_glob pattern; for_yield (select settings) names)
            instructions.

(** Lines 92 to 95 of [_execute]: the path the result is written to. *)
Definition target_path (path : string) (in_place : json) : M string :=
  if negb (truthy in_place) then
    ext ← _ext path;
    lift (re_sub ("\." +:+ fmt ext +:+ "$") (".min." +:+ fmt ext) path)
  else mret path.

Definition _execute (path : string) (h : handler) (in_place : json) : M unit :=
  content ← open_read path;
  if String.eqb content "" then print (Line ("NOO " +:+ path))
  else
    let minified := h content in
    target ← target_path path in_place;
    percent ← lift (Num.percent (Str.len minified) (Str.len content));
    print (Line path);;
    print (Summary target (Str.len content) (Str.len minified) percent);;
    open_write target minified.

(** Binding [**settings] to the parameters of [_execute(cls, path, handler,
    in_place=False)], [path] and [handler] being passed by position: the
    value [in_place] gets, [TypeError] for any other key and for settings
    that are not a mapping. *)
Definition bind_kwargs (settings : json) : exn + json :=
  match settings with
  | JObject kw =>
      if bool_decide (dom kw ⊆ {["in_place"]})
      then inr (default (JBool false) (kw !! "in_place"))
      else inl TypeError
  | _ => inl TypeError
  end.

(** [cls._execute(path, handler, **settings)]. *)
Definition call_execute (path : string) (h : handler) (settings : json) : M unit :=
  in_place ← lift (bind_kwargs settings);
  _execute path h in_place.

(** The dict [tasks] that [minify] fills from what [_find_files] yields. *)
Definition collect (found : list task) : list (string * (handler * json)) :=
  foldl (λ tasks '(path, h, settings), Dict.set path (h, settings) tasks) [] found.

Definition run_tasks (tasks : list (string * (handler * json))) : M unit :=
  for_each (λ '(path, (h, settings)), call_execute path h settings) tasks.

Definition minify (instructions : list (string * json)) : M unit :=
  found ← _find_files instructions;
  run_tasks (collect found).

(** *** Resolution as a function of the files

    [_ext] and [_find_files] only look at the files; what they return is
    written here as functions of them. *)

Definition ext_of (fs : gmap string string) (filename : string) : option string :=
  if bool_decide (is_Some (fs !! filename)) then
    let base := Str.basename filename in
    if Str.contains "." base then Some (Str.rsplit_last "." base) else None
  else None.

Definition select_of (fs : gmap string string) (settings : json)
    (filename : string) : list task :=
  let ext := ext_of fs filename in
  if Str.endswith filename (".min." +:+ fmt ext) then []
  else
    match handlers_get ext with
    | None => []
    | Some h => [(filename, h, settings)]
    end.

Definition found_of (fs : gmap string string)
    (instructions : list (string * json)) : list task :=
  flat_map (λ '(pattern, settings),
              flat_map (select_of fs settings) (glob fs pattern))
           instructions.

Definition globs_of (fs : gmap string string)
    (instructions : list (string * json)) : list event :=
  map (λ '(pattern, _), EGlob pattern fs) instructions.

Definition is_glob (e : event) : bool :=
  match e with
  | EGlob _ _ => true
  | _ => false
  end.

(** The writes to the path [x] among events. *)
Definition writes_to (x : string) (e : event) : bool :=
  match e with
  | EWrite q _ => String.eqb q x
  | _ => false
  end.

(** What the name of a task tells: it ends on a dot and its extension,
    which is registered with the handler of the task, and it is not the
    name of a minified file. *)
Definition eligible (q : string) (h : handler) : Prop :=
  ∃ pre e, q = pre +:+ String "." e ∧
    Str.contains "." (Str.basename q) = true ∧
    e = Str.rsplit_last "." (Str.basename q) ∧
    handlers_get (Some e) = Some h ∧
    Str.endswith q (".min." +:+ e) = false.

(** A computation that does not call [glob]: what it adds to the trace
    holds no [EGlob]. *)
Definition quiet {A} (m : M A) : Prop :=
  ∀ w r w', m w = (r, w') →
    ∃ tr, trace w' = trace w ++ tr ∧ Forall (λ e, is_glob e = false) tr.

End WithExternals.
End Minifier.

(** ** The entry point [main] and what runs are observed by

    [main] parses its arguments, prints a line, reads the configuration
    file, has [json.load] parse it and passes the result to
    [Minifier.minify].  The arguments are taken as parsed: [main] is given
    the value of [--config-file]. *)

(** What [json.load] returns: a dict, whose items keep the order of the
    document, or a value of another type. *)
Inductive document :=
  | DObject (items : list (string * json))
  | DOther (v : json).

(** An exception that leaves [main]: one of [exn], or the [AttributeError]
    of [instructions.items()] on a value that is not a dict. *)
Inductive raised :=
  | Raise (e : exn)
  | AttributeError.

Module Main.
Section WithExternals.
Context `{!Externals}.

(** [json.loads], the parser that [json.load] applies to the text read. *)
Variable json_loads : string → exn + document.

Definition loading_line (config_file : string) : out_line :=
  Line ("Loading config from " +:+ config_file +:+ "...").

Definition main (config_file : string) (w : world) : (raised + ()) * world :=
  match (print (loading_line config_file);; open_read config_file) w with
  | (inl e, w1) => (inl (Raise e), w1)
  | (inr text, w1) =>
      match json_loads text with
      | inl e => (inl (Raise e), w1)
      | inr (DOther _) => (inl AttributeError, w1)
      | inr (DObject items) =>
          match Minifier.minify items w1 with
          | (inl e, w2) => (inl (Raise e), w2)
          | (inr u, w2) => (inr u, w2)
          end
      end
  end.

End WithExternals.
End Main.

Module Observe.
Section WithExternals.
Context `{!Externals}.

Definition is_write (e : event) : bool :=
  match e with
  | EWrite _ _ => true
  | _ => false
  end.

(** The reads of the path [x] among events. *)
Definition reads (x : string) (e : event) : bool :=
  match e with
  | ERead q => String.eqb q x
  | _ => false
  end.

(** A name that ends on a dot and a registered extension. *)
Definition registered_name (x : string) : Prop :=
  ∃ pre e h, x = pre +:+ String "." e ∧
    Minifier.handlers_get (Some e) = Some h.

(** A name that ends on [.min.] and a registered extension. *)
Definition minified_name (x : string) : Prop :=
  ∃ pre e h, x = pre +:+ ".min." +:+ e ∧
    Minifier.handlers_get (Some e) = Some h.

(** The elements of a list, each once, in the order in which they come
    first. *)
Fixpoint first_seen (l : list string) : list string :=
  match l with
  | [] => []
  | x :: l' => x :: filter (λ y, y ≠ x) (first_seen l')
  end.

(** The ways in which [cls._execute(path, handler, **settings)] ends. *)
Inductive outcome (q : string) (h : Minifier.handler) (st : json)
    (w : world) : exn + () → world → Prop :=
  | Refused (e : exn) :
      outcome q h st w (inl e) w
  | Skipped :
      files w !! q = Some "" →
      outcome q h st w (inr ())
        (World (files w)
           (trace w ++ [ERead q; EPrint (Line ("NOO " +:+ q))]))
  | Failed (e : exn) (T : string) :
      files w !! q = Some T → T ≠ "" →
      outcome q h st w (inl e) (World (files w) (trace w ++ [ERead q]))
  | Written (T target : string) (ip : json) (pc : spec_float) :
      files w !! q = Some T → T ≠ "" →
      Minifier.bind_kwargs st = inr ip →
      Minifier.target_path q ip w = (inr target, w) →
      outcome q h st w (inr ())
        (World (<[target := h T]> (files w))
           (trace w ++ [ERead q; EPrint (Line q);
                        EPrint (Summary target (Str.len T) (Str.len (h T)) pc);
                        EWrite target (h T)])).

End WithExternals.
End Observe.

(** ** A small environment to run the model in *)

Module Demo.

(** The text before and after the first [*] of a pattern. *)
Fixpoint split_star (pattern : string) : option (string * string) :=
  match pattern with
  | EmptyString => None
  | String c rest =>
      if Ascii.eqb c "*" then Some (EmptyString, rest)
      else
        match split_star rest with
        | Some (pre, post) => Some (String c pre, post)
        | None => None
        end
  end.

(** A glob for patterns with at most one [*]: the names, in sorted order,
    that start with the text before the star and end with the text after
    it; the directory [x] is also a name. *)
Definition star_glob (fs : gmap string string) (pattern : string) : list string :=
  let names := (map_to_list fs).*1 ++ ["x"] in
  match split_star pattern with
  | None => filter (λ n, n = pattern) names
  | Some (pre, post) =>
      filter (λ n, String.prefix pre n = true ∧ Str.endswith n post = true) names
  end.

(** A minifier that drops the blanks. *)
Fixpoint strip_blanks (s : string) : string :=
  match s with
  | EmptyString => EmptyString
  | String c s' =>
      if Ascii.eqb c " " then strip_blanks s' else String c (strip_blanks s')
  end.

#[local] Instance externals : Externals := {|
  glob := star_glob;
  jsmin := strip_blanks;
  cssmin := λ _, EmptyString;
  htmlmin := λ s _ _, strip_blanks s;
  re_engine := λ _ _ s, inr s
|}.

Definition fs0 : gmap string string :=
  {[ "x/a.js" := "function(){ return 1; }";
     "x/a.min.js" := "12345";
     "x/b.css" := "p { }";
     "x/empty.js" := "";
     "x/Makefile" := "all:";
     "x/notes.txt" := "hello" ]}.

Definition w0 : world := World fs0 [].

End Demo.

(** A configuration file beside these files, and a stand-in for the parser
    to run [main] with: the text [[]] is a list, the text [!] is not JSON,
    any other text is read as one pattern with empty settings. *)
Module DemoMain.

Definition loads (text : string) : exn + document :=
  if String.eqb text "[]" then inr (DOther (JArray []))
  else if String.eqb text "!" then inl ValueError
  else inr (DObject [(text, JObject ∅)]).

Definition with_config (text : string) : world :=
  World (<["conf.json" := text]> Demo.fs0) [].

(** A configuration that minifies the style sheets, and the world after
    it has run on the files of [Demo]: the one style sheet there is
    emptied into [x/b.min.css]. *)
Definition css : list (string * json) := [("x/*.css", JObject ∅)].

Definition css_events (fs : gmap string string) : list event :=
  [EGlob "x/*.css" fs; ERead "x/b.css"; EPrint (Line "x/b.css");
   EPrint (Summary "x/b.min.css" 5 0 (S754_zero false));
   EWrite "x/b.min.css" ""].

Definition after_css : world :=
  World (<["x/b.min.css" := ""]> Demo.fs0) (css_events Demo.fs0).

(** The same run started by [main] from the configuration file. *)
Definition after_main : world :=
  World (<["x/b.min.css" := ""]> (<["conf.json" := "x/*.css"]> Demo.fs0))
    (EPrint (Main.loading_line "conf.json") :: ERead "conf.json" ::
     css_events (<["conf.json" := "x/*.css"]> Demo.fs0)).

End DemoMain.

(** * Properties *)

#[local] Arguments String.app !_ _ / : simpl nomatch.

(** ** Text *)

Module StrFacts.
Import Str.

Lemma sapp_assoc (a b c : string) : (a +:+ b) +:+ c = a +:+ (b +:+ c).
Proof. induction a as [|x a IH]; simpl; [reflexivity | now rewrite IH]. Qed.

Lemma sapp_nil_r (a : string) : a +:+ "" = a.
Proof. induction a as [|x a IH]; simpl; [reflexivity | now rewrite IH]. Qed.

Lemma length_sapp (a b : string) :
  String.length (a +:+ b) = (String.length a + String.length b)%nat.
Proof. induction a as [|x a IH]; simpl; [reflexivity | now rewrite IH]. Qed.

Lemma contains_app (c : ascii) (a b : string) :
  contains c (a +:+ b) = contains c a || contains c b.
Proof.
  induction a as [|x a IH]; simpl; [reflexivity|].
  rewrite IH. now rewrite orb_assoc.
Qed.

(** The text after the last [c] is a suffix, and [c] is not in it. *)
Lemma rsplit_last_suffix (c : ascii) (s : string) :
  ∃ pre, s = pre +:+ rsplit_last c s.
Proof.
  induction s as [|d s IH]; simpl.
  - now exists "".
  - destruct (contains c s).
    + destruct IH as [pre Hpre]. exists (String d pre). simpl. now f_equal.
    + destruct (Ascii.eqb c d).
      * now exists (String d "").
      * now exists "".
Qed.

Lemma rsplit_last_clean (c : ascii) (s : string) :
  contains c (rsplit_last c s) = false.
Proof.
  induction s as [|d s IH]; simpl; [reflexivity|].
  destruct (contains c s) eqn:Hs; [exact IH|].
  destruct (Ascii.eqb c d) eqn:Hd; [exact Hs|].
  simpl. now rewrite Hd, Hs.
Qed.

(** When [c] occurs, it stands right before the text after the last [c]. *)
Lemma rsplit_last_split (c : ascii) (s : string) :
  contains c s = true → ∃ pre, s = pre +:+ String c (rsplit_last c s).
Proof.
  induction s as [|d s IH]; simpl; [discriminate|].
  destruct (contains c s) eqn:Hs.
  - intros _. destruct (IH eq_refl) as [pre Hpre].
    exists (String d pre). simpl. now f_equal.
  - rewrite orb_false_r. intros Hd. rewrite Hd.
    apply Ascii.eqb_eq in Hd. subst d. now exists "".
Qed.

Lemma endswith_app (pre suf : string) : endswith (pre +:+ suf) suf = true.
Proof.
  induction pre as [|x pre IH]; simpl.
  - destruct suf; simpl; rewrite ?String.eqb_refl, ?Ascii.eqb_refl; reflexivity.
  - rewrite IH. apply orb_true_r.
Qed.

Lemma endswith_inv (s suf : string) :
  endswith s suf = true → ∃ pre, s = pre +:+ suf.
Proof.
  induction s as [|x s IH].
  - cbn [endswith]. rewrite orb_false_r. intros H%String.eqb_eq. subst. now exists "".
  - cbn [endswith]. intros [H%String.eqb_eq | H]%orb_true_iff.
    + exists "". now subst.
    + destruct (IH H) as [pre ->]. now exists (String x pre).
Qed.

Lemma endswith_false (pre suf s : string) :
  endswith s suf = false → s ≠ pre +:+ suf.
Proof. intros H ->. now rewrite endswith_app in H. Qed.

Lemma unsnoc_snoc (s : string) (c : ascii) :
  unsnoc (s +:+ String c "") = Some (s, c).
Proof.
  induction s as [|x s IH]; simpl; [reflexivity | now rewrite IH].
Qed.

(** Appending on the left is injective in the left text. *)
Lemma sapp_inv_tail (a b c : string) : a +:+ c = b +:+ c → a = b.
Proof.
  revert b. induction a as [|x a IH]; intros [|y b] H; simpl in H.
  - reflexivity.
  - apply (f_equal String.length) in H. simpl in H.
    rewrite length_sapp in H. lia.
  - apply (f_equal String.length) in H. simpl in H.
    rewrite length_sapp in H. lia.
  - injection H as -> H. f_equal. now apply IH.
Qed.

(** A text has one way of ending on a dot and a text without dots. *)
Lemma dot_suffix_unique (a b e e' : string) :
  contains "." e = false → contains "." e' = false →
  a +:+ String "." e = b +:+ String "." e' → a = b ∧ e = e'.
Proof.
  intros He He'. revert b. induction a as [|c a IH]; intros [|c' b] H;
    simpl in H.
  - now injection H as ->.
  - injection H as <- H. rewrite H, contains_app in He. simpl in He.
    now rewrite orb_true_r in He.
  - injection H as -> H. rewrite <- H, contains_app in He'. simpl in He'.
    now rewrite orb_true_r in He'.
  - injection H as -> H. destruct (IH b H) as [-> ->]. done.
Qed.

End StrFacts.

(** ** The pattern [\.<literal>$] *)

Module ReFacts.
Import Str StrFacts Re.

Lemma literal_clean (c : ascii) (e : string) :
  special c = true → literal e = true → contains c e = false.
Proof.
  intros Hc. induction e as [|d e IH]; [reflexivity|].
  cbn [literal forallb contains]. intros [Hd He]%andb_true_iff.
  rewrite (IH He), orb_false_r.
  destruct (Ascii.eqb_spec c d) as [->|]; [|reflexivity].
  now rewrite Hc in Hd.
Qed.

Lemma parse_literal (e : string) :
  literal e = true →
  parse_dot_literal_eol ("\." +:+ e +:+ "$") = Some ("." +:+ e).
Proof.
  intros He. unfold parse_dot_literal_eol. simpl.
  rewrite unsnoc_snoc. simpl. now rewrite He.
Qed.

Lemma sub_literal_eol_cons (lit repl : string) (c : ascii) (s : string) :
  sub_literal_eol lit repl (String c s) =
  if String.eqb (String c s) lit then repl
  else if String.eqb (String c s) (lit +:+ String newline "") then
    repl +:+ (if String.eqb lit (String newline "") then repl
              else String newline "")
  else String c (sub_literal_eol lit repl s).
Proof. reflexivity. Qed.

(** A text that ends on [.e], [e] without a dot, does not end on [.e]
    followed by a newline. *)
Lemma dot_suffix_no_newline (c : ascii) (pre e : string) :
  contains "." e = false →
  String c (pre +:+ String "." e) ≠ String "." (e +:+ String newline "").
Proof.
  intros He H. injection H as -> H.
  assert (pre = "") as ->.
  { apply (f_equal String.length) in H. rewrite !length_sapp in H.
    simpl in H. destruct pre; [reflexivity | simpl in H; lia]. }
  simpl in H. destruct e as [|x e]; [discriminate|].
  injection H as <- _. simpl in He. discriminate.
Qed.

(** The substitution rewrites the [.e] the text ends on, and nothing else. *)
Lemma sub_literal_eol_suffix (e repl pre : string) :
  contains "." e = false →
  sub_literal_eol (String "." e) repl (pre +:+ String "." e) = pre +:+ repl.
Proof.
  intros He. induction pre as [|c pre IH].
  - simpl String.app at 1. rewrite sub_literal_eol_cons.
    now rewrite String.eqb_refl.
  - change (String c pre +:+ String "." e) with (String c (pre +:+ String "." e)).
    rewrite sub_literal_eol_cons.
    destruct (String.eqb_spec (String c (pre +:+ String "." e)) (String "." e))
      as [H|_].
    { apply (f_equal String.length) in H. simpl in H.
      rewrite length_sapp in H. simpl in H. lia. }
    destruct (String.eqb_spec (String c (pre +:+ String "." e))
                (String "." e +:+ String newline "")) as [H|_].
    { now apply dot_suffix_no_newline in H. }
    now rewrite IH.
Qed.

End ReFacts.

(** ** Running the monad *)

Ltac run_step :=
  unfold mbind, M_bind, mret, M_ret, lift, print, emit, open_read,
    open_write, isfile; simpl.

Module RunFacts.
Import Str StrFacts Re ReFacts Minifier.
Section WithExternals.
Context {Ext : Externals}.

Lemma ext_run (p : string) (w : world) :
  _ext p w = (inr (ext_of (files w) p), w).
Proof.
  unfold _ext, ext_of. run_step.
  destruct (bool_decide (is_Some (files w !! p))); simpl; [|reflexivity].
  destruct (contains "." (basename p)); reflexivity.
Qed.

Lemma select_run (st : json) (p : string) (w : world) :
  select st p w = (inr (select_of (files w) st p), w).
Proof.
  unfold select, select_of. unfold mbind, M_bind. rewrite ext_run.
  destruct (endswith p _); [reflexivity|].
  destruct (handlers_get _); reflexivity.
Qed.

(** A loop whose body only reads the world yields the concatenation of
    what the body returns. *)
Lemma for_yield_pure {A B} (f : A → M (list B)) (g : A → list B)
    (l : list A) (w : world) :
  (∀ x, f x w = (inr (g x), w)) →
  for_yield f l w = (inr (flat_map g l), w).
Proof.
  intros Hf. induction l as [|x l IH]; [reflexivity|].
  cbn [for_yield flat_map]. unfold mbind, M_bind. rewrite Hf.
  unfold mbind, M_bind in IH. now rewrite IH.
Qed.

Lemma glob_select_run (pat : string) (st : json) (w : world) :
  (names ← do_glob pat; for_yield (select st) names) w =
  (inr (flat_map (select_of (files w) st) (glob (files w) pat)),
   World (files w) (trace w ++ [EGlob pat (files w)])).
Proof.
  unfold mbind, M_bind, do_glob.
  apply (for_yield_pure (select st) (select_of (files w) st)).
  intros x. now rewrite select_run.
Qed.

(** Resolution returns, leaves the files as they are, and calls [glob] once
    for each pattern, on those files. *)
Lemma find_files_run (ins : list (string * json)) (w : world) :
  _find_files ins w =
  (inr (found_of (files w) ins),
   World (files w) (trace w ++ globs_of (files w) ins)).
Proof.
  unfold _find_files, found_of, globs_of. revert w.
  induction ins as [|[pat st] ins IH]; intros w.
  - cbn. rewrite app_nil_r. now destruct w.
  - cbn [for_yield flat_map map]. unfold mbind at 1. unfold M_bind at 1.
    rewrite glob_select_run. unfold mbind at 1. unfold M_bind at 1.
    rewrite IH. cbn [files trace mret M_ret].
    now rewrite <- app_assoc.
Qed.

(** *** The extension of a file *)

Lemma ext_of_Some (fs : gmap string string) (p e : string) :
  ext_of fs p = Some e →
  is_Some (fs !! p) ∧ contains "." e = false ∧
  contains "." (basename p) = true ∧ e = rsplit_last "." (basename p) ∧
  ∃ pre, p = pre +:+ String "." e.
Proof.
  unfold ext_of. case_bool_decide as Hf; [|discriminate].
  destruct (contains "." (basename p)) eqn:Hdot; [|discriminate].
  intros [= <-]. repeat split; try done.
  - apply rsplit_last_clean.
  - destruct (rsplit_last_suffix "/" p) as [dir Hdir].
    destruct (rsplit_last_split "." _ Hdot) as [stem Hstem].
    exists (dir +:+ stem). rewrite sapp_assoc.
    fold (basename p) in Hdir. now rewrite <- Hstem.
Qed.

Lemma ext_of_file (fs : gmap string string) (p : string) :
  is_Some (fs !! p) →
  ext_of fs p =
  if contains "." (basename p) then Some (rsplit_last "." (basename p))
  else None.
Proof. intros Hf. unfold ext_of. now rewrite bool_decide_eq_true_2. Qed.

Lemma ext_of_insert (fs : gmap string string) (q c p : string) :
  is_Some (fs !! p) → ext_of (<[q := c]> fs) p = ext_of fs p.
Proof.
  intros Hf. rewrite !ext_of_file; [done | done |].
  destruct (decide (q = p)) as [->|Hne].
  - rewrite lookup_insert_eq. eauto.
  - now rewrite lookup_insert_ne.
Qed.

(** *** The registry *)

Lemma handlers_get_inv (o : option string) (h : handler) :
  handlers_get o = Some h →
  ∃ e, o = Some e ∧ (e = "js" ∨ e = "css" ∨ e = "html" ∨ e = "jinja2").
Proof.
  destruct o as [e|]; [|discriminate]. intros H. exists e. split; [done|].
  unfold handlers_get, handlers in H. cbn [Dict.get] in H.
  destruct (String.eqb_spec e "js"); [tauto|].
  destruct (String.eqb_spec e "css"); [tauto|].
  destruct (String.eqb_spec e "html"); [tauto|].
  destruct (String.eqb_spec e "jinja2"); [tauto|discriminate].
Qed.

Lemma registered_literal (e : string) (h : handler) :
  handlers_get (Some e) = Some h → literal e = true.
Proof.
  intros (e' & [= <-] & [-> | [-> | [-> | ->]]])%handlers_get_inv;
    reflexivity.
Qed.

(** *** The destination *)

Lemma re_sub_dot_ext (e pre : string) :
  literal e = true →
  re_sub ("\." +:+ e +:+ "$") (".min." +:+ e) (pre +:+ String "." e) =
  inr (pre +:+ ".min." +:+ e).
Proof.
  intros He. unfold re_sub. rewrite (parse_literal _ He).
  replace (contains "\" (".min." +:+ e)) with false.
  2:{ simpl. symmetry. now apply literal_clean. }
  simpl String.app at 1.
  rewrite sub_literal_eol_suffix; [done|]. now apply literal_clean.
Qed.

Lemma target_path_run (p e pre : string) (ip : json) (w : world) :
  ext_of (files w) p = Some e → literal e = true →
  p = pre +:+ String "." e →
  target_path p ip w =
  (inr (if truthy ip then p else pre +:+ ".min." +:+ e), w).
Proof.
  intros He Hlit Hp. unfold target_path.
  destruct (truthy ip); simpl; [reflexivity|].
  unfold mbind, M_bind. rewrite ext_run, He. unfold lift, fmt. simpl default.
  rewrite Hp at 1. f_equal. now apply re_sub_dot_ext.
Qed.

End WithExternals.
End RunFacts.

(** ** Binary64 rounding *)

Module NumFacts.
Import Num.

Lemma fexp_eq (e : Z) : fexp prec emax e = Z.max (e - 53) (-1074).
Proof. reflexivity. Qed.

Lemma digits2_size (p : positive) : digits2_pos p = Pos.size p.
Proof. induction p as [p IH|p IH|]; simpl; now rewrite ?IH. Qed.

(** A positive number lies between the powers of two its length names. *)
Lemma digits_bounds (x : Z) :
  0 < x → 2 ^ (Zdigits2 x - 1) <= x < 2 ^ Zdigits2 x.
Proof.
  destruct x as [|p|p]; try lia. intros _. cbn [Zdigits2].
  rewrite digits2_size.
  pose proof (Pos.size_gt p) as Hgt. pose proof (Pos.size_le p) as Hle.
  apply Pos2Z.pos_lt_pos in Hgt. apply Pos2Z.pos_le_pos in Hle.
  rewrite Pos2Z.inj_pow in Hgt, Hle.
  change (Z.pos p~0) with (2 * Z.pos p) in Hle.
  split; [|exact Hgt].
  replace (2 ^ Z.pos (Pos.size p)) with (2 * 2 ^ (Z.pos (Pos.size p) - 1)) in Hle.
  - lia.
  - rewrite <- Z.pow_succ_r by lia. f_equal. lia.
Qed.

Lemma digits_nonneg (x : Z) : 0 <= Zdigits2 x.
Proof. destruct x; simpl; lia. Qed.

Lemma digits_pos (x : Z) : 0 < x → 0 < Zdigits2 x.
Proof. destruct x; simpl; lia. Qed.

Lemma digits_le (x d : Z) : 0 <= x → 0 <= d → x < 2 ^ d → Zdigits2 x <= d.
Proof.
  intros Hx Hd Hlt. destruct (Z.eq_dec x 0) as [->|Hne]; [simpl; lia|].
  destruct (digits_bounds x) as [Hlo _]; [lia|].
  destruct (Z.le_gt_cases (Zdigits2 x) d) as [|Hgt]; [done|].
  assert (2 ^ d <= 2 ^ (Zdigits2 x - 1)) by (apply Z.pow_le_mono_r; lia).
  lia.
Qed.

Lemma digits_ge (x d : Z) : 0 <= d → 2 ^ d <= x → d + 1 <= Zdigits2 x.
Proof.
  intros Hd Hle.
  assert (0 < x) by (pose proof (Z.pow_pos_nonneg 2 d); lia).
  destruct (digits_bounds x) as [_ Hhi]; [lia|].
  destruct (Z.le_gt_cases (d + 1) (Zdigits2 x)) as [|Hgt]; [done|].
  assert (2 ^ Zdigits2 x <= 2 ^ d).
  { apply Z.pow_le_mono_r; [lia|]. lia. }
  lia.
Qed.

(** *** Shifting a mantissa to the right *)

Lemma iter_pos_iter {A} (f : A → A) (p : positive) (x : A) :
  iter_pos f p x = Pos.iter f x p.
Proof.
  revert x. induction p as [p IH|p IH|]; intros x; simpl.
  - rewrite !IH. now rewrite <- !Pos.iter_swap.
  - now rewrite !IH.
  - reflexivity.
Qed.

Lemma shr_1_m (mrs : shr_record) :
  0 <= shr_m mrs → shr_m (shr_1 mrs) = shr_m mrs / 2.
Proof.
  destruct mrs as [m r s]. simpl. intros Hm.
  destruct m as [|[p|p|]|p]; cbn [shr_1 shr_m]; try reflexivity; try lia.
  - apply Z.div_unique with 1; lia.
  - apply Z.div_unique with 0; lia.
Qed.

Lemma shr_1_r (mrs : shr_record) :
  0 <= shr_m mrs → shr_r (shr_1 mrs) = Z.odd (shr_m mrs).
Proof.
  destruct mrs as [m r s]. simpl. intros Hm.
  destruct m as [|[p|p|]|p]; simpl; try reflexivity; lia.
Qed.

(** After [p] shifts the mantissa has lost its [p] low bits, and the round
    bit is the last of them. *)
Lemma shr_iter (p : positive) (mrs : shr_record) :
  0 <= shr_m mrs →
  shr_m (iter_pos shr_1 p mrs) = shr_m mrs / 2 ^ Z.pos p ∧
  shr_r (iter_pos shr_1 p mrs) = Z.odd (shr_m mrs / 2 ^ (Z.pos p - 1)).
Proof.
  intros Hm. rewrite iter_pos_iter.
  induction p as [|p IH] using Pos.peano_ind.
  - simpl Pos.iter. rewrite shr_1_m, shr_1_r by done.
    change (2 ^ 1) with 2. change (2 ^ (1 - 1)) with 1.
    now rewrite Z.div_1_r.
  - rewrite Pos.iter_succ. destruct IH as [IHm IHr].
    assert (0 <= shr_m (Pos.iter shr_1 mrs p)) as Hpos.
    { rewrite IHm. apply Z.div_pos; [done|]. apply Z.pow_pos_nonneg; lia. }
    rewrite shr_1_m, shr_1_r by done. rewrite IHm.
    rewrite Pos2Z.inj_succ. split.
    + rewrite Z.pow_succ_r by lia. rewrite Z.div_div by lia.
      f_equal. lia.
    + f_equal. f_equal. f_equal. lia.
Qed.

Lemma shr_record_of_loc_m (m : Z) (l : location) :
  shr_m (shr_record_of_loc m l) = m.
Proof. now destruct l as [|[]]. Qed.

(** The exponent the first shift settles on, and what is left of the
    mantissa. *)
Lemma shr_fexp_spec (mx ex : Z) (lx : location) :
  0 <= mx →
  let e1 := Z.max ex (fexp prec emax (Zdigits2 mx + ex)) in
  ∃ mrs, shr_fexp prec emax mx ex lx = (mrs, e1) ∧
    shr_m mrs = mx / 2 ^ (e1 - ex) ∧
    (shr_r mrs = true → rounds_up mx (e1 - ex) lx).
Proof.
  intros Hmx e1. unfold shr_fexp, shr.
  destruct (fexp prec emax (Zdigits2 mx + ex) - ex) as [|p|p] eqn:Hd.
  - assert (e1 = ex) as -> by (unfold e1; lia).
    eexists; split; [reflexivity|].
    rewrite Z.sub_diag, Z.pow_0_r, Z.div_1_r, shr_record_of_loc_m.
    split; [done|]. intros Hr. left. split; [done|].
    destruct lx as [|[]]; simpl in Hr; try discriminate; auto.
  - assert (e1 = ex + Z.pos p) as -> by (unfold e1; lia).
    eexists; split; [reflexivity|].
    destruct (shr_iter p (shr_record_of_loc mx lx)) as [Hm Hr].
    { now rewrite shr_record_of_loc_m. }
    rewrite shr_record_of_loc_m in Hm, Hr.
    replace (ex + Z.pos p - ex) with (Z.pos p) by lia.
    split; [done|]. intros Hr'. right. split; [lia|]. now rewrite <- Hr.
  - assert (e1 = ex) as -> by (unfold e1; lia).
    eexists; split; [reflexivity|].
    rewrite Z.sub_diag, Z.pow_0_r, Z.div_1_r, shr_record_of_loc_m.
    split; [done|]. intros Hr. left. split; [done|].
    destruct lx as [|[]]; simpl in Hr; try discriminate; auto.
Qed.

Lemma round_nearest_even_cases (mrs : shr_record) :
  let M' := round_nearest_even (shr_m mrs) (loc_of_shr_record mrs) in
  M' = shr_m mrs ∨ (M' = shr_m mrs + 1 ∧ shr_r mrs = true).
Proof.
  destruct mrs as [m [] []]; simpl; auto.
  destruct (Z.even m); auto.
Qed.

(** What is left of a mantissa after the first shift has at most 53 bits. *)
Lemma shifted_lt (mx ex : Z) :
  0 <= mx →
  let e1 := Z.max ex (fexp prec emax (Zdigits2 mx + ex)) in
  0 <= mx / 2 ^ (e1 - ex) < 2 ^ 53.
Proof.
  intros Hmx e1. assert (0 <= e1 - ex) as Hn by (unfold e1; lia).
  assert (0 < 2 ^ (e1 - ex)) as Hp by (apply Z.pow_pos_nonneg; lia).
  split; [apply Z.div_pos; lia|].
  apply Z.div_lt_upper_bound; [done|].
  destruct (Z.eq_dec mx 0) as [->|Hne]; [lia|].
  destruct (digits_bounds mx) as [_ Hhi]; [lia|].
  rewrite <- Z.pow_add_r by lia.
  eapply Z.lt_le_trans; [exact Hhi|].
  apply Z.pow_le_mono_r; [lia|].
  unfold e1. rewrite fexp_eq. lia.
Qed.

(** Rounding a mantissa [mx >= 0] with exponent [ex]: the mantissa is cut
    to 53 bits, one is added when the part cut off asks for it, and a
    mantissa that reaches [2 ^ 53] is halved. *)
Lemma binary_round_aux_spec (mx ex : Z) (lx : location) :
  0 <= mx →
  let e1 := Z.max ex (fexp prec emax (Zdigits2 mx + ex)) in
  let M1 := mx / 2 ^ (e1 - ex) in
  ∃ M', (M' = M1 ∨ (M' = M1 + 1 ∧ rounds_up mx (e1 - ex) lx)) ∧
    binary_round_aux prec emax false mx ex lx = pack M' e1.
Proof.
  intros Hmx e1 M1.
  destruct (shr_fexp_spec mx ex lx Hmx) as (mrs & Heq & Hm & Hr).
  fold e1 in Heq, Hm, Hr. fold M1 in Hm.
  assert (0 <= M1 < 2 ^ 53) as Hlt by apply (shifted_lt mx ex Hmx).
  unfold binary_round_aux. rewrite Heq.
  pose proof (round_nearest_even_cases mrs) as Hc. cbv zeta in Hc.
  remember (round_nearest_even (shr_m mrs) (loc_of_shr_record mrs)) as M'
    eqn:HeqM'.
  rewrite Hm in Hc. clear HeqM'.
  exists M'. split.
  { destruct Hc as [->|[-> Hr']]; auto. }
  assert (0 <= M' <= 2 ^ 53) as HM' by (destruct Hc as [->|[-> _]]; lia).
  assert (-1074 <= e1) as He1 by (unfold e1; rewrite fexp_eq; lia).
  clearbody e1. clear Hc Hm Hr Heq Hlt M1.
  destruct (Z.eq_dec M' (2 ^ 53)) as [->|Hne].
  - unfold shr_fexp. change (Zdigits2 (2 ^ 53)) with 54. rewrite fexp_eq.
    replace (Z.max (54 + e1 - 53) (-1074) - e1) with 1 by lia.
    unfold shr.
    change (iter_pos shr_1 1 (shr_record_of_loc (2 ^ 53) loc_Exact))
      with (Build_shr_record 4503599627370496 false false).
    cbn [shr_m]. unfold pack.
    change (2 ^ 53 =? 0) with false. change (2 ^ 53 <? 2 ^ 53) with false.
    change (emax - prec) with 971. cbn iota.
    change (Z.to_pos (2 ^ 52)) with 4503599627370496%positive.
    reflexivity.
  - assert (Zdigits2 M' <= 53) as Hd by (apply digits_le; lia).
    unfold shr_fexp, shr. rewrite fexp_eq.
    assert (Z.max (Zdigits2 M' + e1 - 53) (-1074) - e1 <= 0) as Hle by lia.
    assert (shr_m (shr_record_of_loc M' loc_Exact) = M') as Hrec by done.
    unfold pack. change (emax - prec) with 971.
    destruct (Z.max (Zdigits2 M' + e1 - 53) (-1074) - e1) as [|p|p];
      try lia; rewrite Hrec.
    all: destruct M' as [|q|q]; try lia; try reflexivity.
    all: change (Z.pos q =? 0) with false; cbn iota.
    all: assert ((Z.pos q <? 2 ^ 53) = true) as -> by (apply Z.ltb_lt; lia).
    all: reflexivity.
Qed.

(** A float packed with a small exponent is not an infinity. *)
Lemma pack_finite (M e : Z) :
  e <= 970 → finite_or_overflow (pack M e) = inr (pack M e).
Proof.
  intros He. unfold pack.
  destruct (M =? 0); [reflexivity|].
  assert ((e <=? 971) = true) as -> by (apply Z.leb_le; lia).
  assert ((e + 1 <=? 971) = true) as -> by (apply Z.leb_le; lia).
  now destruct (M <? 2 ^ 53).
Qed.

(** [int] of a packed float: the mantissa scaled by the exponent, the
    fraction dropped. *)
Lemma int_of_pack (M e : Z) :
  0 <= M <= 2 ^ 53 → e <= 970 →
  int_of_float (pack M e) =
  inr (if e <? 0 then M / 2 ^ (- e) else M * 2 ^ e).
Proof.
  intros HM He. unfold pack.
  destruct (Z.eqb_spec M 0) as [->|Hne].
  { cbn [int_of_float]. now destruct (e <? 0). }
  assert ((e <=? 971) = true) as -> by (apply Z.leb_le; lia).
  assert ((e + 1 <=? 971) = true) as -> by (apply Z.leb_le; lia).
  destruct (Z.ltb_spec M (2 ^ 53)) as [Hlt|Hge]; cbn [int_of_float].
  - rewrite Z2Pos.id by lia. f_equal.
    destruct e as [|p|p]; cbn [Z.ltb Z.compare].
    + now rewrite Z.shiftl_0_r, Z.mul_1_r.
    + apply Z.shiftl_mul_pow2. lia.
    + rewrite Z.shiftr_div_pow2 by lia. reflexivity.
  - assert (M = 2 ^ 53) as -> by lia. f_equal.
    change (Z.pos (Z.to_pos (2 ^ 52))) with (2 ^ 52).
    destruct (Z.ltb_spec e 0) as [Hneg|Hpos].
    + destruct (Z.eq_dec e (-1)) as [->|Hm1]; [reflexivity|].
      destruct (e + 1) as [|p|p] eqn:He1; try lia.
      rewrite Z.shiftr_div_pow2 by lia.
      replace (- e) with (Z.pos p + 1) by lia.
      rewrite Z.pow_add_r by lia. change (2 ^ 1) with 2.
      change (2 ^ 53) with (2 ^ 52 * 2).
      rewrite Z.div_mul_cancel_r; lia.
    + destruct (e + 1) as [|p|p] eqn:He1; try lia.
      rewrite Z.shiftl_mul_pow2 by lia. rewrite <- He1.
      rewrite Z.pow_add_r by lia. change (2 ^ 53) with (2 ^ 52 * 2).
      change (2 ^ 1) with 2. lia.
Qed.

(** The location of a remainder [r] of a division by [b] says "half or
    more" only when [r] is at least half of [b]. *)
Lemma new_location_half (b r : Z) :
  0 <= r < b →
  new_location b r = loc_Inexact Eq ∨ new_location b r = loc_Inexact Gt →
  b <= 2 * r.
Proof.
  intros Hr. unfold new_location, new_location_even, new_location_odd.
  destruct (Z.even b); destruct (r =? 0).
  - intros [|]; discriminate.
  - destruct (Z.compare_spec (2 * r) b); intros [E|E]; try discriminate; lia.
  - intros [|]; discriminate.
  - destruct (Z.compare_spec (2 * r + 1) b);
      intros [E|E]; try discriminate; lia.
Qed.

(** The division of two positive ints: the dividend is scaled by a power
    of two, divided, and the quotient rounded. *)
Lemma sfdiv_exact (a b : Z) :
  0 < a → 0 < b →
  let e' := Z.min (fexp prec emax (Zdigits2 a - Zdigits2 b)) 0 in
  ∃ q r, a * 2 ^ (- e') = b * q + r ∧ 0 <= r < b ∧
    SFdiv prec emax (exact a) (exact b) =
    binary_round_aux prec emax false q e' (new_location b r).
Proof.
  intros Ha Hb e'.
  destruct a as [|pa|pa]; try lia. destruct b as [|pb|pb]; try lia.
  cbn [exact SFdiv]. unfold SFdiv_core_binary.
  rewrite !Z.add_0_r. change (0 - 0) with 0. fold e'.
  assert (e' <= 0) as He' by (unfold e'; lia).
  set (m' := match 0 - e' with
             | 0 => Z.pos pa
             | Z.pos _ => Z.shiftl (Z.pos pa) (0 - e')
             | Z.neg _ => 0
             end).
  assert (m' = Z.pos pa * 2 ^ (- e')) as Hm'.
  { unfold m'. replace (0 - e') with (- e') by lia.
    destruct (- e') as [|p|p] eqn:E; try lia.
    apply Z.shiftl_mul_pow2. lia. }
  pose proof (Z.div_eucl_eq m' (Z.pos pb)) as Heq.
  pose proof (Z.mod_pos_bound m' (Z.pos pb)) as Hmod.
  unfold Z.modulo in Hmod.
  destruct (Z.div_eucl m' (Z.pos pb)) as [q r].
  exists q, r. rewrite <- Hm'. repeat split; lia.
Qed.

(** Adding one to the quotient [M] of [a * P] by [b] does not reach the
    next multiple of [P] when the addition was called for by a remainder of
    half or more, [a] has at most 53 bits and [M] has 53 bits or [P] more
    than 53. *)
Lemma round_up_safe (a b P M : Z) :
  0 < b → 0 <= a < 2 ^ 53 → 0 < P → M = (a * P) / b →
  (2 * M + 1) * b <= 2 * (a * P) →
  2 ^ 53 <= P ∨ 2 ^ 52 <= M →
  (M + 1) / P = M / P.
Proof.
  intros Hb Ha HP HM Hru Hnorm.
  assert (0 <= M) as HM0 by (subst M; apply Z.div_pos; nia).
  pose proof (Z.div_mod M P ltac:(lia)) as Hdm.
  pose proof (Z.mod_pos_bound M P HP) as Hrho.
  set (c := M / P) in *. set (rho := M mod P) in *.
  assert (0 <= c) as Hc by (apply Z.div_pos; lia).
  destruct (Z.eq_dec (rho + 1) P) as [Hfull|Hroom].
  2:{ symmetry. apply Z.div_unique with (rho + 1); lia. }
  exfalso.
  assert (M + 1 = P * (c + 1)) as Hnext by lia.
  assert (b * M <= a * P) as Hlo by (subst M; apply Z.mul_div_le; lia).
  assert (a * P < b * (M + 1)) as Hhi.
  { subst M. apply (Z.mul_succ_div_gt (a * P) b). lia. }
  assert (a < (c + 1) * b) as Hab by nia.
  assert (2 * P <= b) as Hbig by nia.
  assert (2 * M <= a) as Hhalf by nia.
  change (2 ^ 53) with (2 * 2 ^ 52) in *.
  destruct Hnorm as [HPbig|HMbig]; nia.
Qed.

(** With a dividend below [2 ^ 53], truncating the rounded quotient gives
    the floor of the exact quotient. *)
Lemma per_mille_exact (m s : Z) :
  0 < s → 0 <= m → 1000 * m < 2 ^ 53 →
  per_mille m s = inr (spec_per_mille m s).
Proof.
  intros Hs Hm Hlt. unfold per_mille, spec_per_mille, int_truediv.
  destruct (Z.eqb_spec s 0) as [|_]; [lia|].
  set (a := 1000 * m) in *.
  destruct (Z.eq_dec a 0) as [->|Hane].
  { destruct s; try lia. reflexivity. }
  pose proof (sfdiv_exact a s ltac:(lia) Hs) as Hdiv. cbv zeta in Hdiv.
  set (d1 := Zdigits2 a) in *. set (d2 := Zdigits2 s) in *.
  assert (d1 <= 53) as Hd1 by (apply digits_le; lia).
  assert (0 < d1) as Hd1' by (apply digits_pos; lia).
  assert (0 < d2) as Hd2 by (apply digits_pos; lia).
  rewrite fexp_eq in Hdiv.
  set (k := - Z.min (Z.max (d1 - d2 - 53) (-1074)) 0) in *.
  replace (Z.min (Z.max (d1 - d2 - 53) (-1074)) 0) with (- k) in Hdiv by lia.
  assert (1 <= k <= 1074) as Hk by lia.
  destruct Hdiv as (q & r & Hqr & Hr & ->).
  assert (0 < 2 ^ k) as Hpk by (apply Z.pow_pos_nonneg; lia).
  assert (q = (a * 2 ^ k) / s) as Hq by (apply Z.div_unique with r; lia).
  assert (0 <= q) as Hq0 by (rewrite Hq; apply Z.div_pos; nia).
  assert (q <= a * 2 ^ k) as Hqle by nia.
  set (dq := Zdigits2 q) in *.
  assert (dq <= 53 + k) as Hdq.
  { apply digits_le; [lia | lia |]. rewrite Z.pow_add_r by lia. nia. }
  pose proof (binary_round_aux_spec q (- k) (new_location s r) Hq0) as HB.
  cbv zeta in HB. rewrite fexp_eq in HB. fold dq in HB.
  set (e1 := Z.max (- k) (Z.max (dq + - k - 53) (-1074))) in *.
  destruct HB as (M' & HM' & ->).
  set (n := e1 - - k) in *. set (K := - e1).
  assert (0 <= n) as Hn by lia. assert (0 <= K) as HK by lia.
  assert (k = K + n) as HkK by lia.
  assert (0 < 2 ^ n) as Hpn by (apply Z.pow_pos_nonneg; lia).
  assert (0 < 2 ^ K) as HpK by (apply Z.pow_pos_nonneg; lia).
  assert (2 ^ k = 2 ^ K * 2 ^ n) as Hpow by (rewrite HkK; apply Z.pow_add_r; lia).
  set (M1 := q / 2 ^ n) in *.
  assert (M1 = (a * 2 ^ K) / s) as HM1.
  { unfold M1. rewrite Hq, Hpow, Z.div_div by lia.
    rewrite Z.mul_assoc. apply Z.div_mul_cancel_r; lia. }
  assert (M1 / 2 ^ K = a / s) as Hfloor.
  { rewrite HM1, Z.div_div by lia. apply Z.div_mul_cancel_r; lia. }
  assert (0 <= M1 < 2 ^ 53) as HM1b.
  { split; [apply Z.div_pos; lia|]. unfold M1.
    apply Z.div_lt_upper_bound; [done|].
    destruct (Z.eq_dec q 0) as [->|Hq1]; [lia|].
    destruct (digits_bounds q) as [_ Hhi]; [lia|]. fold dq in Hhi.
    rewrite <- Z.pow_add_r by lia.
    eapply Z.lt_le_trans; [exact Hhi|]. apply Z.pow_le_mono_r; lia. }
  rewrite pack_finite by lia.
  rewrite int_of_pack by (destruct HM' as [->|[-> _]]; lia).
  f_equal. fold K.
  assert ((if e1 <? 0 then M' / 2 ^ K else M' * 2 ^ e1) = M' / 2 ^ K) as ->.
  { destruct (Z.ltb_spec e1 0); [done|].
    assert (e1 = 0) as He0 by lia. unfold K. rewrite He0.
    change (2 ^ (- 0)) with 1. change (2 ^ 0) with 1.
    now rewrite Z.div_1_r, Z.mul_1_r. }
  destruct HM' as [->|[-> Hru]]; [exact Hfloor|].
  rewrite <- Hfloor. apply (round_up_safe a s); try lia; try done.
  - (* the part cut off is half a unit or more *)
    destruct Hru as [[Hn0 Hloc]|[Hnpos Hodd]].
    + apply (new_location_half s r Hr) in Hloc.
      assert (n = 0) as Hn0' by exact Hn0.
      assert (M1 = q) as -> by (unfold M1; rewrite Hn0'; apply Z.div_1_r).
      rewrite Hn0' in Hpow. change (2 ^ 0) with 1 in Hpow.
      rewrite Z.mul_1_r in Hpow. rewrite <- Hpow. nia.
    + fold n in Hnpos, Hodd.
      set (t := q / 2 ^ (n - 1)) in *.
      assert (0 < 2 ^ (n - 1)) as Hpn1 by (apply Z.pow_pos_nonneg; lia).
      assert (2 ^ n = 2 ^ (n - 1) * 2) as Hsplit.
      { replace n with (n - 1 + 1) at 1 by lia.
        rewrite Z.pow_add_r by lia. reflexivity. }
      assert (M1 = t / 2) as HM1t.
      { unfold M1, t. rewrite Hsplit. now rewrite Z.div_div by lia. }
      assert (t = 2 * M1 + 1) as Ht.
      { rewrite HM1t. rewrite (Z.div_mod t 2) at 1 by lia.
        rewrite Zmod_odd, Hodd. lia. }
      assert (2 ^ (n - 1) * t <= q) as Htq.
      { unfold t. apply Z.mul_div_le. lia. }
      rewrite Hpow, Hsplit in Hqr. nia.
  - (* the mantissa is normal, or the exponent the least one *)
    destruct (Z.le_gt_cases 53 dq) as [Hnormal|Hsub].
    + right. unfold M1.
      assert (n = dq - 53) as Hn' by lia.
      assert (0 < q) as Hqpos.
      { destruct (Z.eq_dec q 0) as [Hz|]; [|lia].
        unfold dq in Hnormal. rewrite Hz in Hnormal. simpl in Hnormal. lia. }
      destruct (digits_bounds q Hqpos) as [Hlo _]. fold dq in Hlo.
      apply Z.div_le_lower_bound; [done|].
      rewrite <- Z.pow_add_r by lia.
      replace (n + 52) with (dq - 1) by lia. exact Hlo.
    + left. assert (K = k) as -> by lia.
      destruct (Z.eq_dec k 1074) as [->|Hk'].
      { apply Z.pow_le_mono_r; lia. }
      exfalso. assert (k = 53 + d2 - d1) as Hkd by lia.
      destruct (digits_bounds a ltac:(lia)) as [Halo _]. fold d1 in Halo.
      destruct (digits_bounds s Hs) as [_ Hshi]. fold d2 in Hshi.
      assert (2 ^ 52 <= q) as Hqbig.
      { rewrite Hq. apply Z.div_le_lower_bound; [done|].
        assert (2 ^ (d1 - 1) * 2 ^ k = 2 ^ 52 * 2 ^ d2) as Hexp.
        { rewrite <- !Z.pow_add_r by lia. f_equal. lia. }
        assert (0 < 2 ^ 52) by (apply Z.pow_pos_nonneg; lia).
        nia. }
      assert (53 <= dq) by (apply (digits_ge q 52); lia). lia.
Qed.

(** *** No overflow on lengths of strings *)

Lemma iter_xO (m d : positive) :
  Z.pos (Pos.iter xO m d) = Z.pos m * 2 ^ Z.pos d.
Proof.
  induction d as [|d IH] using Pos.peano_ind.
  - change (Z.pos (Pos.iter xO m 1)) with (2 * Z.pos m).
    change (2 ^ 1) with 2. lia.
  - rewrite Pos.iter_succ, Pos2Z.inj_succ, Z.pow_succ_r by lia.
    change (Z.pos (Pos.iter xO m d)~0) with (2 * Z.pos (Pos.iter xO m d)).
    rewrite IH. lia.
Qed.

(** Rounding what is below [2 ^ 1023] gives a zero or a finite float, of
    the exponent the first shift settles on. *)
Lemma round_ok (mx ex : Z) (lx : location) :
  0 <= mx →
  let e1 := Z.max ex (fexp prec emax (Zdigits2 mx + ex)) in
  ∃ M', 0 <= M' <= 2 ^ 53 ∧
    binary_round_aux prec emax false mx ex lx = pack M' e1.
Proof.
  intros Hmx e1.
  pose proof (binary_round_aux_spec mx ex lx Hmx) as HB. cbv zeta in HB.
  fold e1 in HB. destruct HB as (M' & HM' & ->).
  assert (0 <= mx / 2 ^ (e1 - ex) < 2 ^ 53) as Hlt
    by apply (shifted_lt mx ex Hmx).
  exists M'. split; [|reflexivity].
  destruct HM' as [->|[-> _]]; lia.
Qed.

Lemma int_truediv_ok (a b : Z) :
  0 <= a < 2 ^ 80 → 0 < b →
  ∃ f k, int_truediv a b = inr f ∧ int_of_float f = inr k ∧
    0 <= k <= 2 ^ 80.
Proof.
  intros Ha Hb. unfold int_truediv.
  destruct (Z.eqb_spec b 0) as [|_]; [lia|].
  destruct (Z.eq_dec a 0) as [->|Hane].
  { destruct b; try lia. exists (S754_zero false), 0. now repeat split. }
  pose proof (sfdiv_exact a b ltac:(lia) Hb) as Hdiv. cbv zeta in Hdiv.
  set (e' := Z.min (fexp prec emax (Zdigits2 a - Zdigits2 b)) 0) in *.
  assert (e' <= 0) as He' by (unfold e'; lia).
  destruct Hdiv as (q & r & Hqr & Hr & ->).
  assert (0 < 2 ^ (- e')) as Hp by (apply Z.pow_pos_nonneg; lia).
  assert (0 <= q) as Hq0 by nia.
  assert (q <= a * 2 ^ (- e')) as Hqle by nia.
  assert (Zdigits2 q <= 80 - e') as Hdq.
  { apply digits_le; [lia | lia |].
    replace (80 - e') with (80 + - e') by lia.
    rewrite Z.pow_add_r by lia. nia. }
  pose proof (round_ok q e' (new_location b r) Hq0) as HR. cbv zeta in HR.
  rewrite fexp_eq in HR.
  set (e1 := Z.max e' (Z.max (Zdigits2 q + e' - 53) (-1074))) in *.
  destruct HR as (M' & HM' & ->).
  assert (e1 <= 27) as He1 by lia.
  rewrite pack_finite by lia.
  eexists _, _. split; [reflexivity|].
  rewrite int_of_pack by lia. split; [reflexivity|].
  destruct (Z.ltb_spec e1 0) as [Hneg|Hpos].
  - assert (0 < 2 ^ (- e1)) by (apply Z.pow_pos_nonneg; lia).
    split; [apply Z.div_pos; lia|].
    assert (M' / 2 ^ (- e1) <= M') by (apply Z.div_le_upper_bound; nia).
    assert (2 ^ 53 <= 2 ^ 80) by (apply Z.pow_le_mono_r; lia). lia.
  - assert (0 < 2 ^ e1) by (apply Z.pow_pos_nonneg; lia).
    assert (2 ^ e1 <= 2 ^ 27) by (apply Z.pow_le_mono_r; lia).
    change (2 ^ 80) with (2 ^ 53 * 2 ^ 27). nia.
Qed.

Lemma float_of_int_ok (k : Z) :
  0 <= k <= 2 ^ 80 → ∃ f, float_of_int k = inr f.
Proof.
  intros Hk. unfold float_of_int, binary_normalize.
  destruct k as [|p|p]; try lia; [now eexists|].
  unfold binary_round, shl_align. rewrite Z.add_0_r, Z.sub_0_r.
  change (Z.pos (digits2_pos p)) with (Zdigits2 (Z.pos p)).
  assert (Zdigits2 (Z.pos p) <= 81) as Hdp.
  { apply digits_le; lia. }
  pose proof (digits_pos (Z.pos p) ltac:(lia)) as Hdp'.
  rewrite fexp_eq.
  destruct (Z.max (Zdigits2 (Z.pos p) - 53) (-1074)) as [|d|d] eqn:Hf.
  - pose proof (round_ok (Z.pos p) 0 loc_Exact ltac:(lia)) as HR.
    cbv zeta in HR. destruct HR as (M' & HM' & ->).
    rewrite pack_finite; [now eexists|]. rewrite fexp_eq. lia.
  - pose proof (round_ok (Z.pos p) 0 loc_Exact ltac:(lia)) as HR.
    cbv zeta in HR. destruct HR as (M' & HM' & ->).
    rewrite pack_finite; [now eexists|]. rewrite fexp_eq. lia.
  - pose proof (round_ok (Z.pos (Pos.iter xO p d)) (Z.neg d) loc_Exact
                  ltac:(lia)) as HR.
    cbv zeta in HR. destruct HR as (M' & HM' & ->).
    rewrite pack_finite; [now eexists|]. rewrite fexp_eq.
    assert (Zdigits2 (Z.pos (Pos.iter xO p d))
            <= Zdigits2 (Z.pos p) + Z.pos d) as Hdm.
    { apply digits_le; try lia. rewrite iter_xO, Z.pow_add_r by lia.
      destruct (digits_bounds (Z.pos p) ltac:(lia)) as [_ Hhi].
      assert (0 < 2 ^ Z.pos d) by (apply Z.pow_pos_nonneg; lia). nia. }
    lia.
Qed.

(** The percentage of two lengths of Python strings is computed without
    an exception. *)
Lemma percent_ok (m s : Z) :
  0 < s → 0 <= m <= maxsize → ∃ f, percent m s = inr f.
Proof.
  intros Hs Hm. unfold percent, per_mille.
  destruct (int_truediv_ok (1000 * m) s) as (f & k & -> & -> & Hk); [|done|].
  { unfold maxsize in Hm.
    change (2 ^ 80) with (2 ^ 63 * 131072). change (2 ^ 63) with 9223372036854775808 in *. lia. }
  unfold tenths. destruct (float_of_int_ok k Hk) as [g ->].
  now eexists.
Qed.

Lemma percent_zero (s : Z) : 0 < s → percent 0 s = inr (S754_zero false).
Proof. destruct s; try lia. reflexivity. Qed.

End NumFacts.

(** ** Executing a task *)

Module ExecFacts.
Import Str StrFacts Re ReFacts Minifier RunFacts Num NumFacts.
Section WithExternals.
Context {Ext : Externals}.

Lemma len_pos (T : string) : T ≠ "" → 0 < len T.
Proof. destruct T; [done|]. intros _. unfold len. simpl. lia. Qed.

Lemma len_nonneg (T : string) : 0 <= len T.
Proof. unfold len. lia. Qed.

(** A file that is read and is not empty: its text is transformed, the
    two lines are printed and the result is written to the destination. *)
Lemma execute_run (path e pre T : string) (h : handler) (ip : json)
    (pc : spec_float) (w : world) :
  files w !! path = Some T → T ≠ "" →
  ext_of (files w) path = Some e → literal e = true →
  path = pre +:+ String "." e →
  percent (len (h T)) (len T) = inr pc →
  let target := if truthy ip then path else pre +:+ ".min." +:+ e in
  _execute path h ip w =
  (inr (),
   World (<[target := h T]> (files w))
     (trace w ++ [ERead path; EPrint (Line path);
                  EPrint (Summary target (len T) (len (h T)) pc);
                  EWrite target (h T)])).
Proof.
  intros Hf HT He Hlit Hp Hpc target.
  unfold _execute. unfold mbind at 1. unfold M_bind at 1.
  unfold open_read. rewrite Hf.
  apply String.eqb_neq in HT. rewrite HT.
  unfold mbind at 1. unfold M_bind at 1.
  rewrite (target_path_run path e pre ip
             (World (files w) (trace w ++ [ERead path])) He Hlit Hp).
  fold target.
  rewrite Hpc. run_step. rewrite <- !app_assoc. reflexivity.
Qed.

(** A file that is read and is empty: one line is printed, that is all. *)
Lemma execute_empty (path : string) (h : handler) (ip : json) (w : world) :
  files w !! path = Some "" →
  _execute path h ip w =
  (inr (),
   World (files w)
     (trace w ++ [ERead path; EPrint (Line ("NOO " +:+ path))])).
Proof.
  intros Hf. unfold _execute. run_step. rewrite Hf. simpl.
  now rewrite <- app_assoc.
Qed.

Lemma bind_kwargs_unknown (kw : gmap string json) (k : string) :
  is_Some (kw !! k) → k ≠ "in_place" → bind_kwargs (JObject kw) = inl TypeError.
Proof.
  intros Hk Hne. unfold bind_kwargs.
  rewrite bool_decide_eq_false_2; [done|].
  intros Hsub. apply elem_of_dom in Hk. apply Hsub in Hk.
  now apply elem_of_singleton in Hk.
Qed.

Lemma bind_kwargs_known (kw : gmap string json) :
  dom kw ⊆ {["in_place"]} →
  bind_kwargs (JObject kw) = inr (default (JBool false) (kw !! "in_place")).
Proof. intros Hsub. unfold bind_kwargs. now rewrite bool_decide_eq_true_2. Qed.

End WithExternals.
End ExecFacts.

(** * The claims of the specification *)

Section Execution.
Import Str StrFacts Re ReFacts Minifier RunFacts Num NumFacts ExecFacts.
Context {Ext : Externals}.

(** C1.  Executing a task on a regular file with extension [e], whose text
    [T] is not empty, with the transform [f] registered for [e]: the file
    is read, the two lines are printed, and exactly [f T] is written to the
    computed destination, which is the path itself when [in_place] holds
    and the path with [.e] replaced by [.min.e] otherwise.  The lengths are
    those of Python strings, at most [sys.maxsize]. *)
Theorem C1_execute_writes_transform
    (w : world) (path e T : string) (f : handler) (in_place : json) :
  files w !! path = Some T → T ≠ "" →
  _ext path w = (inr (Some e), w) →
  handlers_get (Some e) = Some f →
  len T <= maxsize → len (f T) <= maxsize →
  ∃ pre pc, path = pre +:+ "." +:+ e ∧
    let target := if truthy in_place then path else pre +:+ ".min." +:+ e in
    _execute path f in_place w =
    (inr (),
     World (<[target := f T]> (files w))
       (trace w ++ [ERead path; EPrint (Line path);
                    EPrint (Summary target (len T) (len (f T)) pc);
                    EWrite target (f T)])).
Proof.
  intros Hf HT He Hh HlT HlfT.
  rewrite ext_run in He. injection He as He.
  destruct (ext_of_Some _ _ _ He) as (_ & _ & _ & _ & pre & Hp).
  destruct (percent_ok (len (f T)) (len T)) as [pc Hpc].
  { now apply len_pos. }
  { split; [apply len_nonneg | done]. }
  exists pre, pc. split; [exact Hp|].
  apply execute_run; try done. now apply (registered_literal e f).
Qed.

(** C2, as amended.  A key other than [in_place] in the settings of a task
    is not ignored: binding the settings to the parameters of [_execute]
    raises [TypeError] before the file is read, and the task writes and
    prints nothing. *)
Theorem C2_unknown_key_raises
    (w : world) (path k : string) (h : handler) (kw : gmap string json) :
  is_Some (kw !! k) → k ≠ "in_place" →
  call_execute path h (JObject kw) w = (inl TypeError, w).
Proof.
  intros Hk Hne. unfold call_execute, mbind, M_bind, lift.
  now rewrite (bind_kwargs_unknown kw k Hk Hne).
Qed.

(** Settings whose only key is [in_place] are passed on, [False] standing
    in for a key that is absent. *)
Lemma call_execute_known
    (w : world) (path : string) (h : handler) (kw : gmap string json) :
  dom kw ⊆ {["in_place"]} →
  call_execute path h (JObject kw) w =
  _execute path h (default (JBool false) (kw !! "in_place")) w.
Proof.
  intros Hsub. unfold call_execute, mbind, M_bind, lift.
  now rewrite (bind_kwargs_known kw Hsub).
Qed.

(** C5.  The destination of a task on a path that ends on [.e], [e] being
    the registered extension of the file: with a false [in_place] the final
    [.e] is replaced by [.min.e], whatever the text before it; with a true
    [in_place] it is the path. *)
Theorem C5_target_path
    (w : world) (pre e : string) (h : handler) (in_place : json) :
  let path := pre +:+ "." +:+ e in
  _ext path w = (inr (Some e), w) →
  handlers_get (Some e) = Some h →
  target_path path in_place w =
  (inr (if truthy in_place then path else pre +:+ ".min." +:+ e), w).
Proof.
  intros path He Hh. rewrite ext_run in He. injection He as He.
  apply target_path_run with (e := e); try done.
  now apply (registered_literal e h).
Qed.

(** C7.  A task on a file of length zero returns without an exception,
    whatever the handler and [in_place]: the file is read, one line that
    names it is printed, nothing is written. *)
Theorem C7_empty_file_skipped
    (w : world) (path : string) (h : handler) (in_place : json) :
  files w !! path = Some "" →
  _execute path h in_place w =
  (inr (),
   World (files w)
     (trace w ++ [ERead path; EPrint (Line ("NOO " +:+ path))])).
Proof. apply execute_empty. Qed.

(** C10.  A text that is not empty and that its transform turns into the
    empty text: the empty result is written to the destination all the
    same, and the percentage reported is [0.0]. *)
Theorem C10_empty_result_written
    (w : world) (path e T : string) (f : handler) (in_place : json) :
  files w !! path = Some T → T ≠ "" →
  _ext path w = (inr (Some e), w) →
  handlers_get (Some e) = Some f →
  f T = "" →
  ∃ pre, path = pre +:+ "." +:+ e ∧
    let target := if truthy in_place then path else pre +:+ ".min." +:+ e in
    _execute path f in_place w =
    (inr (),
     World (<[target := ""]> (files w))
       (trace w ++ [ERead path; EPrint (Line path);
                    EPrint (Summary target (len T) 0 (S754_zero false));
                    EWrite target ""])).
Proof.
  intros Hf HT He Hh HfT.
  rewrite ext_run in He. injection He as He.
  destruct (ext_of_Some _ _ _ He) as (_ & _ & _ & _ & pre & Hp).
  exists pre. split; [exact Hp|].
  pose proof (execute_run path e pre T f in_place (S754_zero false) w
                Hf HT He (registered_literal e f Hh) Hp) as Hrun.
  rewrite HfT in Hrun. apply Hrun.
  apply percent_zero. now apply len_pos.
Qed.

End Execution.

(** ** Dicts and the task dict *)

Module DictFacts.

Lemma get_set_eq {V} (k : string) (v : V) (d : list (string * V)) :
  Dict.get k (Dict.set k v d) = Some v.
Proof.
  induction d as [|[k' v'] d IH]; simpl.
  - now rewrite String.eqb_refl.
  - destruct (String.eqb_spec k k') as [->|Hne]; simpl.
    + now rewrite String.eqb_refl.
    + apply String.eqb_neq in Hne. now rewrite Hne.
Qed.

Lemma get_set_ne {V} (k k' : string) (v : V) (d : list (string * V)) :
  k ≠ k' → Dict.get k' (Dict.set k v d) = Dict.get k' d.
Proof.
  intros Hne. induction d as [|[k0 v0] d IH]; simpl.
  - destruct (String.eqb_spec k' k); congruence.
  - destruct (String.eqb_spec k k0) as [->|Hne0]; simpl.
    + destruct (String.eqb_spec k' k0); congruence.
    + now rewrite IH.
Qed.

Lemma keys_set {V} (k k' : string) (v : V) (d : list (string * V)) :
  k' ∈ Dict.keys (Dict.set k v d) ↔ k' = k ∨ k' ∈ Dict.keys d.
Proof.
  unfold Dict.keys. induction d as [|[k0 v0] d IH]; simpl.
  - rewrite list_elem_of_singleton, elem_of_nil. tauto.
  - destruct (String.eqb_spec k k0) as [->|Hne]; simpl.
    + rewrite !elem_of_cons. tauto.
    + rewrite !elem_of_cons, IH. tauto.
Qed.

Lemma NoDup_set {V} (k : string) (v : V) (d : list (string * V)) :
  NoDup (Dict.keys d) → NoDup (Dict.keys (Dict.set k v d)).
Proof.
  unfold Dict.keys. induction d as [|[k0 v0] d IH]; simpl; intros Hnd.
  - apply NoDup_singleton.
  - apply NoDup_cons in Hnd as [Hnotin Hnd].
    destruct (String.eqb_spec k k0) as [->|Hne]; simpl.
    + now apply NoDup_cons.
    + apply NoDup_cons. split; [|now apply IH].
      intros [->|Hin]%(keys_set k k0 v d); [done|]. now apply Hnotin.
Qed.

Lemma get_None {V} (k : string) (d : list (string * V)) :
  k ∉ Dict.keys d → Dict.get k d = None.
Proof.
  unfold Dict.keys. induction d as [|[k0 v0] d IH]; simpl; [done|].
  intros Hnotin. apply not_elem_of_cons in Hnotin as [Hne Hnotin].
  apply String.eqb_neq in Hne. rewrite Hne. now apply IH.
Qed.

Lemma get_Some_keys {V} (k : string) (v : V) (d : list (string * V)) :
  Dict.get k d = Some v → k ∈ Dict.keys d.
Proof.
  unfold Dict.keys. induction d as [|[k0 v0] d IH]; simpl; [done|].
  destruct (String.eqb_spec k k0) as [->|Hne].
  - intros _. apply elem_of_cons. now left.
  - intros H. apply elem_of_cons. right. now apply IH.
Qed.

Lemma get_elem_of {V} (k : string) (v : V) (d : list (string * V)) :
  Dict.get k d = Some v → (k, v) ∈ d.
Proof.
  induction d as [|[k0 v0] d IH]; simpl; [done|].
  destruct (String.eqb_spec k k0) as [->|Hne].
  - intros [= ->]. apply list_elem_of_here.
  - intros H. apply list_elem_of_further. now apply IH.
Qed.

Lemma elem_of_get {V} (k : string) (v : V) (d : list (string * V)) :
  NoDup (Dict.keys d) → (k, v) ∈ d → Dict.get k d = Some v.
Proof.
  unfold Dict.keys. induction d as [|[k0 v0] d IH]; simpl; intros Hnd Hin.
  - now apply elem_of_nil in Hin.
  - apply NoDup_cons in Hnd as [Hnotin Hnd].
    apply elem_of_cons in Hin as [[= -> ->]|Hin].
    + now rewrite String.eqb_refl.
    + destruct (String.eqb_spec k k0) as [->|Hne]; [|now apply IH].
      exfalso. apply Hnotin. apply list_elem_of_fmap. now exists (k0, v).
Qed.

Lemma filter_none {A} (P : A → Prop) `{!∀ x, Decision (P x)} (l : list A) :
  (∀ x, x ∈ l → ¬ P x) → filter P l = [].
Proof.
  induction l as [|x l IH]; intros Hall; [done|].
  rewrite filter_cons_False by (apply Hall, list_elem_of_here).
  apply IH. intros y Hy. apply Hall. now apply list_elem_of_further.
Qed.

(** With keys that are all different, a key that is bound has one entry. *)
Lemma filter_get {V} (k : string) (v : V) (d : list (string * V)) :
  NoDup (Dict.keys d) → Dict.get k d = Some v →
  filter (λ t, t.1 = k) d = [(k, v)].
Proof.
  unfold Dict.keys. induction d as [|[k0 v0] d IH]; simpl; intros Hnd Hget.
  - discriminate.
  - apply NoDup_cons in Hnd as [Hnotin Hnd].
    destruct (String.eqb_spec k k0) as [->|Hne].
    + injection Hget as ->. rewrite filter_cons_True by done. f_equal.
      apply filter_none. intros [k1 v1] Hin Hk. simpl in Hk. subst k1.
      apply Hnotin. apply list_elem_of_fmap. now exists (k0, v1).
    + rewrite filter_cons_False by (simpl; congruence). now apply IH.
Qed.

End DictFacts.

(** ** Resolution *)

Module ResolveFacts.
Import Str StrFacts Minifier RunFacts DictFacts.
Section WithExternals.
Context {Ext : Externals}.

(** What a file name yields: itself, with the handler of its extension and
    the settings of the pattern, when it is not a minified file. *)
Lemma select_of_inv (fs : gmap string string) (st : json) (q : string) (t : task) :
  t ∈ select_of fs st q →
  ∃ h, t = (q, h, st) ∧ handlers_get (ext_of fs q) = Some h ∧
    endswith q (".min." +:+ fmt (ext_of fs q)) = false.
Proof.
  unfold select_of.
  destruct (endswith q _) eqn:Hend; [intros []%elem_of_nil|].
  destruct (handlers_get _) as [h|] eqn:Hh; [|intros []%elem_of_nil].
  intros ->%list_elem_of_singleton. now exists h.
Qed.

Lemma select_of_eligible (fs : gmap string string) (st : json)
    (q e : string) (h : handler) :
  ext_of fs q = Some e → handlers_get (Some e) = Some h →
  endswith q (".min." +:+ e) = false →
  select_of fs st q = [(q, h, st)].
Proof.
  intros He Hh Hend. unfold select_of. rewrite He. unfold fmt. simpl default.
  now rewrite Hend, Hh.
Qed.

Lemma found_of_inv (fs : gmap string string) (ins : list (string * json))
    (t : task) :
  t ∈ found_of fs ins →
  ∃ pat st h, t = (t.1.1, h, st) ∧ (pat, st) ∈ ins ∧ t.1.1 ∈ glob fs pat ∧
    handlers_get (ext_of fs t.1.1) = Some h ∧
    endswith t.1.1 (".min." +:+ fmt (ext_of fs t.1.1)) = false.
Proof.
  unfold found_of. rewrite list_elem_of_In, in_flat_map.
  intros ([pat st] & Hin & Ht). apply in_flat_map in Ht as (q & Hq & Ht).
  apply list_elem_of_In in Hin, Hq, Ht.
  apply select_of_inv in Ht as (h & -> & Hh & Hend).
  now exists pat, st, h.
Qed.

Lemma found_of_app (fs : gmap string string) (a b : list (string * json)) :
  found_of fs (a ++ b) = found_of fs a ++ found_of fs b.
Proof. unfold found_of. apply flat_map_app. Qed.

(** *** The task dict *)

Lemma collect_acc_keys (acc : list (string * (handler * json)))
    (found : list task) (k : string) :
  k ∈ Dict.keys
        (foldl (λ tasks '(path, h, settings), Dict.set path (h, settings) tasks)
               acc found) ↔
  k ∈ Dict.keys acc ∨ k ∈ (λ t : task, t.1.1) <$> found.
Proof.
  revert acc. induction found as [|[[q h] st] found IH]; intros acc; simpl.
  - rewrite elem_of_nil. tauto.
  - rewrite IH, keys_set, elem_of_cons. tauto.
Qed.

Lemma collect_acc_NoDup (acc : list (string * (handler * json)))
    (found : list task) :
  NoDup (Dict.keys acc) →
  NoDup (Dict.keys
           (foldl (λ tasks '(path, h, settings), Dict.set path (h, settings) tasks)
                  acc found)).
Proof.
  revert acc. induction found as [|[[q h] st] found IH]; intros acc Hnd; simpl.
  - done.
  - apply IH. now apply NoDup_set.
Qed.

(** The value a path is bound to is the one yielded last with it. *)
Lemma collect_acc_get_last (p : string) (v : handler * json)
    (acc : list (string * (handler * json))) (found : list task) :
  (∀ t, t ∈ found → t.1.1 = p → (t.1.2, t.2) = v) →
  Dict.get p acc = Some v ∨ p ∈ (λ t : task, t.1.1) <$> found →
  Dict.get p
    (foldl (λ tasks '(path, h, settings), Dict.set path (h, settings) tasks)
           acc found) = Some v.
Proof.
  revert acc. induction found as [|[[q h] st] found IH]; intros acc Hall Hor.
  - destruct Hor as [|[]%elem_of_nil]. done.
  - simpl. apply IH.
    + intros t Ht. apply Hall. now apply list_elem_of_further.
    + destruct (decide (q = p)) as [->|Hne].
      * left. rewrite get_set_eq. f_equal.
        apply (Hall (p, h, st)); [apply list_elem_of_here | done].
      * rewrite get_set_ne by done.
        destruct Hor as [|Hin]; [now left|]. right.
        simpl in Hin. apply elem_of_cons in Hin as [|]; [congruence | done].
Qed.

(** A binding of the dict was yielded, or was there before. *)
Lemma collect_acc_get_inv (p : string) (v : handler * json)
    (acc : list (string * (handler * json))) (found : list task) :
  Dict.get p
    (foldl (λ tasks '(path, h, settings), Dict.set path (h, settings) tasks)
           acc found) = Some v →
  Dict.get p acc = Some v ∨ (p, v.1, v.2) ∈ found.
Proof.
  revert acc. induction found as [|[[q h] st] found IH]; intros acc Hget.
  - now left.
  - simpl in Hget. apply IH in Hget as [Hget|Hin].
    + destruct (decide (q = p)) as [->|Hne].
      * rewrite get_set_eq in Hget. injection Hget as <-.
        right. apply list_elem_of_here.
      * rewrite get_set_ne in Hget by done. now left.
    + right. now apply list_elem_of_further.
Qed.

Lemma collect_NoDup (found : list task) : NoDup (Dict.keys (collect found)).
Proof. apply collect_acc_NoDup. apply NoDup_nil_2. Qed.

Lemma collect_elem_of (found : list task) (p : string) (v : handler * json) :
  (p, v) ∈ collect found → (p, v.1, v.2) ∈ found.
Proof.
  intros Hin. apply elem_of_get in Hin; [|apply collect_NoDup].
  apply collect_acc_get_inv in Hin as [|]; [discriminate | done].
Qed.

End WithExternals.
End ResolveFacts.

(** ** Execution does not call [glob] *)

Module QuietFacts.
Import Minifier.
Section WithExternals.
Context {Ext : Externals}.

Lemma quiet_ret {A} (x : A) : quiet (mret x).
Proof.
  intros w r w' [= <- <-]. exists []. split; [now rewrite app_nil_r | done].
Qed.

Lemma quiet_lift {A} (r : exn + A) : quiet (lift r).
Proof.
  intros w r' w' [= <- <-]. exists []. split; [now rewrite app_nil_r | done].
Qed.

Lemma quiet_bind {A B} (m : M A) (f : A → M B) :
  quiet m → (∀ x, quiet (f x)) → quiet (m ≫= f).
Proof.
  intros Hm Hf w r w'. unfold mbind, M_bind.
  destruct (m w) as [[e|x] w1] eqn:Hmw.
  - intros [= <- <-]. apply (Hm _ _ _ Hmw).
  - intros Hfx. destruct (Hm _ _ _ Hmw) as (tr1 & Ht1 & Hq1).
    destruct (Hf _ _ _ _ Hfx) as (tr2 & Ht2 & Hq2).
    exists (tr1 ++ tr2). split; [now rewrite Ht2, Ht1, app_assoc|].
    now apply Forall_app.
Qed.

Lemma quiet_emit (e : event) : is_glob e = false → quiet (emit e).
Proof.
  intros He w r w' [= <- <-]. exists [e]. split; [done|].
  now apply Forall_singleton.
Qed.

Lemma quiet_isfile (p : string) : quiet (isfile p).
Proof.
  intros w r w' [= <- <-]. exists []. split; [now rewrite app_nil_r | done].
Qed.

Lemma quiet_open_read (p : string) : quiet (open_read p).
Proof.
  intros w r w'. unfold open_read. destruct (files w !! p).
  - intros [= <- <-]. exists [ERead p]. split; [done|].
    now apply Forall_singleton.
  - intros [= <- <-]. exists []. split; [now rewrite app_nil_r | done].
Qed.

Lemma quiet_open_write (p c : string) : quiet (open_write p c).
Proof.
  intros w r w' [= <- <-]. exists [EWrite p c]. split; [done|].
  now apply Forall_singleton.
Qed.

Lemma quiet_ext (p : string) : quiet (_ext p).
Proof.
  unfold _ext. apply quiet_bind; [apply quiet_isfile|]. intros f.
  destruct (negb f); [apply quiet_ret|].
  destruct (negb _); apply quiet_ret.
Qed.

Lemma quiet_target_path (p : string) (ip : json) : quiet (target_path p ip).
Proof.
  unfold target_path. destruct (negb (truthy ip)); [|apply quiet_ret].
  apply quiet_bind; [apply quiet_ext|]. intros ext. apply quiet_lift.
Qed.

Lemma quiet_execute (p : string) (h : handler) (ip : json) :
  quiet (_execute p h ip).
Proof.
  unfold _execute. apply quiet_bind; [apply quiet_open_read|]. intros c.
  destruct (String.eqb c ""); [now apply quiet_emit|].
  apply quiet_bind; [apply quiet_target_path|]. intros target.
  apply quiet_bind; [apply quiet_lift|]. intros pc.
  apply quiet_bind; [now apply quiet_emit|]. intros _.
  apply quiet_bind; [now apply quiet_emit|]. intros _.
  apply quiet_open_write.
Qed.

Lemma quiet_call_execute (p : string) (h : handler) (st : json) :
  quiet (call_execute p h st).
Proof.
  unfold call_execute. apply quiet_bind; [apply quiet_lift|].
  intros ip. apply quiet_execute.
Qed.

Lemma quiet_run_tasks (tasks : list (string * (handler * json))) :
  quiet (run_tasks tasks).
Proof.
  unfold run_tasks. induction tasks as [|[p [h st]] tasks IH]; simpl.
  - apply quiet_ret.
  - apply quiet_bind; [apply quiet_call_execute | intros _; apply IH].
Qed.

End WithExternals.
End QuietFacts.

(** ** What the other tasks of a run leave alone *)

Module WholeRunFacts.
Import Str StrFacts Re ReFacts Minifier RunFacts Num ExecFacts.
Import DictFacts ResolveFacts.
Section WithExternals.
Context {Ext : Externals}.

Lemma eligible_ext (q : string) (h : handler) (fs : gmap string string) :
  eligible q h → is_Some (fs !! q) →
  ∃ pre e, q = pre +:+ String "." e ∧ ext_of fs q = Some e ∧
    literal e = true ∧ contains "." e = false ∧
    endswith q (".min." +:+ e) = false.
Proof.
  intros (pre & e & Hq & Hdot & He & Hh & Hg) Hf.
  exists pre, e. split; [done|]. split.
  - rewrite ext_of_file by done. now rewrite Hdot, He.
  - split; [now apply (registered_literal e h)|]. split; [|done].
    rewrite He. apply rsplit_last_clean.
Qed.

Lemma found_eligible (fs : gmap string string) (ins : list (string * json))
    (t : task) :
  t ∈ found_of fs ins → eligible t.1.1 t.1.2.
Proof.
  intros (pat & st & h & -> & _ & _ & Hh & Hg)%found_of_inv. simpl in *.
  destruct (handlers_get_inv _ _ Hh) as (e & He & _).
  destruct (ext_of_Some _ _ _ He) as (_ & _ & Hdot & Hrs & pre & Hq).
  rewrite He in Hh, Hg. exists pre, e. now repeat split.
Qed.

Lemma min_split (x e : string) :
  x +:+ ".min." +:+ e = (x +:+ ".min") +:+ String "." e.
Proof. now rewrite sapp_assoc. Qed.

(** The destination of a task is neither another task nor the minified
    name of another task. *)
Lemma target_apart (p pre e q preq eq : string) (b : bool) :
  p = pre +:+ String "." e → q = preq +:+ String "." eq →
  contains "." e = false → contains "." eq = false →
  endswith p (".min." +:+ e) = false →
  endswith q (".min." +:+ eq) = false →
  q ≠ p →
  (if b then q else preq +:+ ".min." +:+ eq) ≠ p ∧
  (if b then q else preq +:+ ".min." +:+ eq) ≠ pre +:+ ".min." +:+ e.
Proof.
  intros Hp Hq He Heq Hgp Hgq Hne. destruct b; split.
  - done.
  - intros H. rewrite Hq, min_split in H.
    apply dot_suffix_unique in H as [-> ->]; [|done|done].
    apply (endswith_false pre) in Hgq. apply Hgq.
    now rewrite Hq, <- min_split.
  - intros H. rewrite Hp, min_split in H.
    apply dot_suffix_unique in H as [<- <-]; [|done|done].
    apply (endswith_false preq) in Hgp. apply Hgp.
    now rewrite Hp, <- min_split.
  - intros H. rewrite !min_split in H.
    apply dot_suffix_unique in H as [H ->]; [|done|done].
    apply sapp_inv_tail in H. subst preq. congruence.
Qed.

Lemma minified_name_differs (pre e : string) :
  pre +:+ ".min." +:+ e ≠ pre +:+ String "." e.
Proof.
  intros H. apply (f_equal String.length) in H.
  rewrite !length_sapp in H. simpl in H. lia.
Qed.

(** A task on another path reads and writes neither [p] nor the minified
    name of [p], whether it returns or raises. *)
Lemma call_execute_other (p pre e q : string) (hq : handler) (stq : json)
    (w w' : world) (r : exn + ()) :
  p = pre +:+ String "." e → contains "." e = false →
  endswith p (".min." +:+ e) = false →
  q ≠ p → eligible q hq →
  call_execute q hq stq w = (r, w') →
  files w' !! p = files w !! p ∧
  files w' !! (pre +:+ ".min." +:+ e) = files w !! (pre +:+ ".min." +:+ e) ∧
  ∃ tr, trace w' = trace w ++ tr ∧
    List.filter (writes_to p) tr = [] ∧
    List.filter (writes_to (pre +:+ ".min." +:+ e)) tr = [].
Proof.
  intros Hp He Hgp Hne Hel.
  unfold call_execute, mbind, M_bind, lift.
  destruct (bind_kwargs stq) as [err|ip].
  { intros [= <- <-]. repeat split. exists []. now rewrite app_nil_r. }
  unfold _execute. unfold mbind at 1. unfold M_bind at 1. unfold open_read.
  destruct (files w !! q) as [c|] eqn:Hfq.
  2:{ intros [= <- <-]. repeat split. exists []. now rewrite app_nil_r. }
  destruct (String.eqb c "").
  { intros [= <- <-]. repeat split. eexists. split.
    - cbn [trace]. rewrite <- app_assoc. reflexivity.
    - done. }
  destruct (eligible_ext q hq (files w) Hel) as (preq & eq & Hq & Hext & Hlit & Hdq & Hgq);
    [eauto|].
  unfold mbind at 1. unfold M_bind at 1.
  rewrite (target_path_run q eq preq ip
             (World (files w) (trace w ++ [ERead q])) Hext Hlit Hq).
  destruct (target_apart p pre e q preq eq (truthy ip) Hp Hq He Hdq Hgp Hgq Hne)
    as [Htp Htd].
  remember (if truthy ip then q else preq +:+ ".min." +:+ eq) as tq eqn:Htq.
  remember (pre +:+ ".min." +:+ e) as d eqn:Hd. clear Htq Hd.
  destruct (percent _ _) as [err|pc].
  { intros [= <- <-]. repeat split. exists [ERead q]. done. }
  run_step. intros [= <- <-]. cbn [files trace].
  rewrite !lookup_insert_ne by done. repeat split.
  eexists. split.
  - rewrite <- !app_assoc. reflexivity.
  - apply String.eqb_neq in Htp, Htd. simpl. now rewrite Htp, Htd.
Qed.

Lemma run_tasks_cons (q : string) (h : handler) (st : json)
    (ts : list (string * (handler * json))) (w : world) :
  run_tasks ((q, (h, st)) :: ts) w =
  match call_execute q h st w with
  | (inl err, w1) => (inl err, w1)
  | (inr _, w1) => run_tasks ts w1
  end.
Proof. reflexivity. Qed.

Lemma run_tasks_app (l1 l2 : list (string * (handler * json))) (w : world) :
  run_tasks (l1 ++ l2) w =
  match run_tasks l1 w with
  | (inl err, w1) => (inl err, w1)
  | (inr _, w1) => run_tasks l2 w1
  end.
Proof.
  revert w. induction l1 as [|[q [h st]] l1 IH]; intros w; [reflexivity|].
  rewrite <- app_comm_cons, !run_tasks_cons.
  destruct (call_execute q h st w) as [[err|[]] w1]; [reflexivity | apply IH].
Qed.

Lemma run_others (p pre e : string) (ts : list (string * (handler * json))) :
  p = pre +:+ String "." e → contains "." e = false →
  endswith p (".min." +:+ e) = false →
  (∀ q v, (q, v) ∈ ts → q ≠ p ∧ eligible q v.1) →
  ∀ w r w', run_tasks ts w = (r, w') →
    files w' !! p = files w !! p ∧
    files w' !! (pre +:+ ".min." +:+ e) = files w !! (pre +:+ ".min." +:+ e) ∧
    ∃ tr, trace w' = trace w ++ tr ∧
      List.filter (writes_to p) tr = [] ∧
      List.filter (writes_to (pre +:+ ".min." +:+ e)) tr = [].
Proof.
  intros Hp He Hgp. induction ts as [|[q [h st]] ts IH]; intros Hall w r w'.
  - intros [= <- <-]. repeat split. exists []. now rewrite app_nil_r.
  - rewrite run_tasks_cons.
    destruct (call_execute q h st w) as [[err|[]] w1] eqn:Hstep.
    + intros [= <- <-].
      destruct (Hall q (h, st) (list_elem_of_here _ _)) as [Hne Hel].
      apply (call_execute_other p pre e q h st w w1 _ Hp He Hgp Hne Hel Hstep).
    + intros Hrest.
      destruct (Hall q (h, st) (list_elem_of_here _ _)) as [Hne Hel].
      destruct (call_execute_other p pre e q h st w w1 _ Hp He Hgp Hne Hel Hstep)
        as (Hp1 & Hd1 & tr1 & Ht1 & Hw1 & Hwd1).
      destruct (IH (λ q' v Hin, Hall q' v (list_elem_of_further _ _ _ Hin))
                  w1 r w' Hrest) as (Hp2 & Hd2 & tr2 & Ht2 & Hw2 & Hwd2).
      split; [congruence|]. split; [congruence|].
      exists (tr1 ++ tr2). split; [now rewrite Ht2, Ht1, app_assoc|].
      rewrite !List.filter_app, Hw1, Hw2, Hwd1, Hwd2. done.
Qed.

(** In a run that completes, a task in place on a text that is not empty
    is the one write to its path, and nothing is written to the minified
    name of the path. *)
Lemma run_single_write (p pre e T : string) (h : handler)
    (tasks : list (string * (handler * json))) (w w' : world) :
  NoDup (Dict.keys tasks) →
  (∀ q v, (q, v) ∈ tasks → eligible q v.1) →
  (p, (h, JObject {["in_place" := JBool true]})) ∈ tasks →
  p = pre +:+ String "." e → contains "." e = false →
  endswith p (".min." +:+ e) = false →
  files w !! p = Some T → T ≠ "" →
  run_tasks tasks w = (inr (), w') →
  files w' !! p = Some (h T) ∧
  files w' !! (pre +:+ ".min." +:+ e) = files w !! (pre +:+ ".min." +:+ e) ∧
  ∃ tr, trace w' = trace w ++ tr ∧
    List.filter (writes_to p) tr = [EWrite p (h T)] ∧
    List.filter (writes_to (pre +:+ ".min." +:+ e)) tr = [].
Proof.
  intros Hnd Hall Hin Hp He Hgp Hf HT Hrun.
  apply list_elem_of_split in Hin as (l1 & l2 & ->).
  unfold Dict.keys in Hnd. rewrite fmap_app, fmap_cons in Hnd. simpl in Hnd.
  apply NoDup_app in Hnd as (_ & Hl1 & Hnd).
  apply NoDup_cons in Hnd as [Hl2 _].
  assert (∀ q v, (q, v) ∈ l1 → q ≠ p ∧ eligible q v.1) as Hall1.
  { intros q v Hq. split.
    - intros ->. apply (Hl1 p); [|apply list_elem_of_here].
      apply list_elem_of_fmap. now exists (p, v).
    - apply Hall. apply elem_of_app. now left. }
  assert (∀ q v, (q, v) ∈ l2 → q ≠ p ∧ eligible q v.1) as Hall2.
  { intros q v Hq. split.
    - intros ->. apply Hl2. apply list_elem_of_fmap. now exists (p, v).
    - apply Hall. apply elem_of_app. right. now apply list_elem_of_further. }
  rewrite run_tasks_app in Hrun.
  destruct (run_tasks l1 w) as [[err|[]] w1] eqn:Hrun1; [discriminate|].
  destruct (run_others p pre e l1 Hp He Hgp Hall1 w _ w1 Hrun1)
    as (Hp1 & Hd1 & tr1 & Ht1 & Hw1 & Hwd1).
  rewrite run_tasks_cons in Hrun.
  destruct (call_execute p h _ w1) as [[err|[]] w2] eqn:Hstep; [discriminate|].
  rewrite call_execute_known in Hstep by (now rewrite dom_singleton_L).
  rewrite lookup_singleton_eq in Hstep. simpl default in Hstep.
  rewrite Hf in Hp1.
  assert (eligible p h) as Hel.
  { apply (Hall p (h, JObject {["in_place" := JBool true]})).
    apply elem_of_app. right. apply list_elem_of_here. }
  destruct (eligible_ext p h (files w1) Hel) as (pre' & e' & Hp' & Hext & Hlit & _);
    [eauto|].
  destruct (percent (len (h T)) (len T)) as [err|pc] eqn:Hpc.
  { exfalso. revert Hstep. unfold _execute.
    unfold mbind at 1. unfold M_bind at 1. unfold open_read. rewrite Hp1.
    apply String.eqb_neq in HT. rewrite HT.
    unfold mbind at 1. unfold M_bind at 1.
    rewrite (target_path_run p e' pre' (JBool true)
               (World (files w1) (trace w1 ++ [ERead p])) Hext Hlit Hp').
    unfold mbind at 1. unfold M_bind at 1. unfold lift. rewrite Hpc.
    discriminate. }
  rewrite (execute_run p e' pre' T h (JBool true) pc w1 Hp1 HT Hext Hlit Hp' Hpc)
    in Hstep.
  simpl truthy in Hstep. cbv iota in Hstep. injection Hstep as <-.
  destruct (run_others p pre e l2 Hp He Hgp Hall2 _ _ w' Hrun)
    as (Hp2 & Hd2 & tr2 & Ht2 & Hw2 & Hwd2).
  cbn [files trace] in Hp2, Hd2, Ht2.
  rewrite lookup_insert_eq in Hp2.
  rewrite lookup_insert_ne in Hd2.
  2:{ rewrite Hp at 1. apply not_eq_sym, minified_name_differs. }
  split; [done|]. split; [congruence|].
  assert (String.eqb p (pre +:+ ".min." +:+ e) = false) as Hpd.
  { apply String.eqb_neq. rewrite Hp at 1.
    apply not_eq_sym, minified_name_differs. }
  remember (pre +:+ ".min." +:+ e) as d eqn:Hd. clear Hd.
  eexists. split.
  - rewrite Ht2, Ht1, <- !app_assoc. reflexivity.
  - rewrite !List.filter_app, Hw1, Hw2, Hwd1, Hwd2. simpl.
    now rewrite String.eqb_refl, Hpd.
Qed.

End WithExternals.
End WholeRunFacts.

Section Resolution.
Import Str StrFacts Re ReFacts Minifier RunFacts Num NumFacts ExecFacts.
Import DictFacts ResolveFacts QuietFacts WholeRunFacts.
Context {Ext : Externals}.

(** C4.  A matched path that ends on [.min.e], [e] being the extension
    [_ext] detects for it, is never yielded by [_find_files], whatever the
    patterns, and is not a key of the task dict. *)
Theorem C4_minified_never_selected
    (ins : list (string * json)) (w : world) (p e : string) :
  _ext p w = (inr (Some e), w) →
  endswith p (".min." +:+ e) = true →
  ∃ found w', _find_files ins w = (inr found, w') ∧ files w' = files w ∧
    (p ∉ (λ t : task, t.1.1) <$> found) ∧ (p ∉ Dict.keys (collect found)).
Proof.
  intros He Hend. rewrite ext_run in He. injection He as He.
  eexists _, _. split; [apply find_files_run|]. split; [done|].
  assert (p ∉ ((λ t : task, t.1.1) <$> found_of (files w) ins)) as Hnotin.
  { intros (t & -> & Ht)%list_elem_of_fmap.
    apply found_of_inv in Ht as (_ & _ & _ & _ & _ & _ & _ & Hguard).
    rewrite He in Hguard. unfold fmt in Hguard. simpl default in Hguard.
    congruence. }
  split; [done|]. unfold collect. rewrite collect_acc_keys.
  intros [[]%elem_of_nil|]. done.
Qed.

(** C8.  A matched path whose base name holds no dot, or whose extension
    is not a key of the registry, is not yielded and is not a key of the
    task dict; resolution returns without an exception. *)
Theorem C8_unsupported_skipped
    (ins : list (string * json)) (w : world) (p : string) :
  contains "." (basename p) = false ∨
  handlers_get (Some (rsplit_last "." (basename p))) = None →
  ∃ found w', _find_files ins w = (inr found, w') ∧ files w' = files w ∧
    (p ∉ (λ t : task, t.1.1) <$> found) ∧ (p ∉ Dict.keys (collect found)).
Proof.
  intros Hp.
  eexists _, _. split; [apply find_files_run|]. split; [done|].
  assert (p ∉ ((λ t : task, t.1.1) <$> found_of (files w) ins)) as Hnotin.
  { intros (t & -> & Ht)%list_elem_of_fmap.
    apply found_of_inv in Ht as (_ & _ & h & _ & _ & _ & Hh & _).
    destruct (handlers_get_inv _ _ Hh) as (e & He & _).
    destruct (ext_of_Some _ _ _ He) as (_ & _ & Hdot & -> & _).
    rewrite He in Hh. destruct Hp; congruence. }
  split; [done|]. unfold collect. rewrite collect_acc_keys.
  intros [[]%elem_of_nil|]. done.
Qed.

(** C6.  A path that several patterns match has one task in the task
    dict, with the settings of the last pattern that matches it.  When
    these settings are [in_place = true]: executing the task writes the
    transformed text to the path itself and to no other file; and in a run
    that completes, that write is the only write to the path, and nothing
    is written to the name [pre.min.e] derived from it. *)
Theorem C6_last_pattern_wins
    (ins1 ins2 : list (string * json)) (w : world) (pat pre e : string)
    (st : json) (h : handler) :
  let p := pre +:+ "." +:+ e in
  let ins := ins1 ++ (pat, st) :: ins2 in
  p ∈ glob (files w) pat →
  (∀ pat' st', (pat', st') ∈ ins2 → p ∉ glob (files w) pat') →
  _ext p w = (inr (Some e), w) →
  handlers_get (Some e) = Some h →
  endswith p (".min." +:+ e) = false →
  ∃ found w',
    _find_files ins w = (inr found, w') ∧
    files w' = files w ∧
    filter (λ t, t.1 = p) (collect found) = [(p, (h, st))] ∧
    (st = JObject {["in_place" := JBool true]} →
     ∀ T, files w !! p = Some T → T ≠ "" →
       (len T <= maxsize → len (h T) <= maxsize →
        ∃ pc, call_execute p h st w' =
          (inr (),
           World (<[p := h T]> (files w))
             (trace w' ++ [ERead p; EPrint (Line p);
                           EPrint (Summary p (len T) (len (h T)) pc);
                           EWrite p (h T)]))) ∧
       (∀ w2, minify ins w = (inr (), w2) →
        files w2 !! p = Some (h T) ∧
        files w2 !! (pre +:+ ".min." +:+ e) =
          files w !! (pre +:+ ".min." +:+ e) ∧
        ∃ tr, trace w2 = trace w' ++ tr ∧
          List.filter (writes_to p) tr = [EWrite p (h T)] ∧
          List.filter (writes_to (pre +:+ ".min." +:+ e)) tr = [])).
Proof.
  intros p ins Hglob Hlast He Hh Hguard.
  assert (p = pre +:+ String "." e) as Hp by reflexivity.
  assert (ins = ins1 ++ (pat, st) :: ins2) as Hins by reflexivity.
  clearbody p ins.
  rewrite ext_run in He. injection He as He.
  assert (Dict.get p (collect (found_of (files w) ins)) = Some (h, st)) as Hget.
  { rewrite Hins, found_of_app. unfold collect. rewrite foldl_app.
    apply collect_acc_get_last.
    + intros t Ht Hpath.
      change ((pat, st) :: ins2) with ([(pat, st)] ++ ins2) in Ht.
      rewrite found_of_app in Ht. apply elem_of_app in Ht as [Ht|Ht].
      * apply found_of_inv in Ht as (pat' & st' & h' & -> & Hin & _ & Hh' & _).
        apply list_elem_of_singleton in Hin as [= -> ->].
        simpl in Hpath, Hh'. rewrite Hpath, He in Hh'. simpl. congruence.
      * apply found_of_inv in Ht as (pat' & st' & h' & _ & Hin & Hg & _).
        rewrite Hpath in Hg. now apply Hlast in Hin.
    + right. apply list_elem_of_fmap. exists (p, h, st). split; [done|].
      unfold found_of. simpl flat_map. apply elem_of_app. left.
      apply list_elem_of_In, in_flat_map. exists p.
      split; [now apply list_elem_of_In|].
      rewrite (select_of_eligible _ st p e h He Hh Hguard). now left. }
  eexists _, _. split; [apply find_files_run|]. split; [done|]. split.
  { apply filter_get; [apply collect_NoDup | exact Hget]. }
  intros -> T Hf HT. split.
  - intros HlT HlhT.
    destruct (percent_ok (len (h T)) (len T)) as [pc Hpc].
    { now apply len_pos. }
    { split; [apply len_nonneg | done]. }
    exists pc. rewrite call_execute_known.
    2:{ rewrite dom_singleton_L. done. }
    rewrite lookup_singleton_eq. simpl default.
    match goal with
    | |- _execute _ _ _ ?w1 = _ =>
        apply (execute_run p e pre T h (JBool true) pc w1); try done
    end.
    now apply (registered_literal e h).
  - intros w2 Hrun. unfold minify, mbind, M_bind in Hrun.
    rewrite find_files_run in Hrun.
    destruct (ext_of_Some _ _ _ He) as (_ & Hde & _).
    apply (run_single_write p pre e T h
             (collect (found_of (files w) ins))
             (World (files w) (trace w ++ globs_of (files w) ins)) w2
             (collect_NoDup _)); try done.
    + intros q v Hin. apply collect_elem_of in Hin.
      now apply found_eligible in Hin.
    + now apply get_elem_of.
Qed.

(** C9.  The run resolves all its tasks, then executes them.  Resolution
    calls [glob] once for each pattern, each call on the files the run
    started with, and writes nothing; every task is a regular file of
    those files that a pattern matched there; executing the tasks calls
    [glob] no more.  So no file that a task writes is added to the tasks
    of the run. *)
Theorem C9_tasks_resolved_before_execution
    (ins : list (string * json)) (w : world) :
  ∃ found,
    let w1 := World (files w) (trace w ++ globs_of (files w) ins) in
    _find_files ins w = (inr found, w1) ∧
    minify ins w = run_tasks (collect found) w1 ∧
    (∀ p v, (p, v) ∈ collect found →
       is_Some (files w !! p) ∧
       ∃ pat st, (pat, st) ∈ ins ∧ p ∈ glob (files w) pat) ∧
    quiet (run_tasks (collect found)).
Proof.
  exists (found_of (files w) ins). cbv zeta.
  split; [apply find_files_run|]. split; [|split].
  - unfold minify. unfold mbind, M_bind. now rewrite find_files_run.
  - intros p v Hin. apply collect_elem_of in Hin.
    apply found_of_inv in Hin as (pat & st & h & _ & Hins & Hg & Hh & _).
    simpl in Hg, Hh. destruct (handlers_get_inv _ _ Hh) as (e & He & _).
    split; [now destruct (ext_of_Some _ _ _ He)|]. now exists pat, st.
  - apply quiet_run_tasks.
Qed.

End Resolution.

Section Percentage.
Import Num NumFacts.

(** C3, as amended.  For a source length [s > 0] and a minified length
    [m >= 0] with [1000 * m < 2 ^ 53], the integer the script divides by ten
    is the floor of [1000 * m / s], so that the percentage reported is that
    floor divided by [10.0]: the tenths digit is truncated, never rounded. *)
Theorem C3_percent_truncates (m s : Z) :
  0 < s → 0 <= m → 1000 * m < 2 ^ 53 →
  per_mille m s = inr (spec_per_mille m s) ∧
  percent m s = spec_percent m s.
Proof.
  intros Hs Hm Hlt. pose proof (per_mille_exact m s Hs Hm Hlt) as Hk.
  split; [exact Hk|]. unfold percent, spec_percent. now rewrite Hk.
Qed.

End Percentage.

(** * The claims on concrete inputs *)

Section Examples.
Import Str Minifier Num.
#[local] Existing Instance Demo.externals.

(** The scenario of the specification: [x/a.js] is minified into
    [x/a.min.js]. *)
Lemma C1_witness :
  ∃ pre pc, "x/a.js" = pre +:+ "." +:+ "js" ∧
    let target := if truthy (JBool false) then "x/a.js"
                  else pre +:+ ".min." +:+ "js" in
    _execute "x/a.js" Demo.strip_blanks (JBool false) Demo.w0 =
    (inr (),
     World (<[target := Demo.strip_blanks "function(){ return 1; }"]>
              (files Demo.w0))
       (trace Demo.w0 ++
        [ERead "x/a.js"; EPrint (Line "x/a.js");
         EPrint (Summary target (len "function(){ return 1; }")
                   (len (Demo.strip_blanks "function(){ return 1; }")) pc);
         EWrite target (Demo.strip_blanks "function(){ return 1; }")])).
Proof.
  apply (C1_execute_writes_transform Demo.w0 "x/a.js" "js"
           "function(){ return 1; }" Demo.strip_blanks (JBool false)).
  - reflexivity.
  - discriminate.
  - reflexivity.
  - reflexivity.
  - now vm_compute.
  - now vm_compute.
Defined.

(** A misspelt option is not ignored: the task raises [TypeError], where
    the same task without the key is executed. *)
Lemma C2_counterexample :
  call_execute "x/a.js" Demo.strip_blanks
    (JObject {["inplace" := JBool true]}) Demo.w0 = (inl TypeError, Demo.w0) ∧
  (call_execute "x/a.js" Demo.strip_blanks
     (JObject (delete "inplace" {["inplace" := JBool true]})) Demo.w0).1
  = inr ().
Proof. split; reflexivity. Qed.

Lemma C2_witness :
  call_execute "x/a.js" Demo.strip_blanks
    (JObject {["inplace" := JBool true]}) Demo.w0 = (inl TypeError, Demo.w0).
Proof.
  apply (C2_unknown_key_raises Demo.w0 "x/a.js" "inplace").
  - exists (JBool true). reflexivity.
  - discriminate.
Defined.

(** The examples of the specification: [567] of [1000] is reported as the
    float closest to [56.7], [2] of [3] as the float closest to [66.6]. *)
Lemma C3_witness :
  (per_mille 567 1000 = inr 567 ∧
   ∃ f, percent 567 1000 = inr f ∧ half_ulp_of_tenths f 567) ∧
  (per_mille 2 3 = inr 666 ∧
   ∃ f, percent 2 3 = inr f ∧ half_ulp_of_tenths f 666).
Proof.
  split.
  - destruct (C3_percent_truncates 567 1000) as [Hk Hp]; [lia | lia | lia |].
    split; [exact Hk|]. rewrite Hp.
    exists (S754_finite false 7979815589747098 (-47)).
    split; [reflexivity|]. split; [reflexivity | now vm_compute].
  - destruct (C3_percent_truncates 2 3) as [Hk Hp]; [lia | lia | lia |].
    split; [exact Hk|]. rewrite Hp.
    exists (S754_finite false 4686558362232422 (-46)).
    split; [reflexivity|]. split; [reflexivity | now vm_compute].
Defined.

(** With a source of 3 characters and a minified text of 27021597764224,
    the quotient is rounded up to the next integer before [int] truncates
    it: the script divides 9007199254741334 by ten, the floor is
    9007199254741333. *)
Lemma C3_counterexample :
  0 < 3 ∧ 0 <= 27021597764224 ∧
  per_mille 27021597764224 3 = inr 9007199254741334 ∧
  spec_per_mille 27021597764224 3 = 9007199254741333 ∧
  percent 27021597764224 3 ≠ spec_percent 27021597764224 3.
Proof.
  split; [lia|]. split; [lia|]. split; [reflexivity|]. split; [reflexivity|].
  now vm_compute.
Qed.

(** The minified file of an earlier run is not selected again. *)
Lemma C4_witness :
  ∃ found w',
    _find_files [("x/*.js", JObject ∅)] Demo.w0 = (inr found, w') ∧
    files w' = files Demo.w0 ∧
    ("x/a.min.js" ∉ (λ t : task, t.1.1) <$> found) ∧
    ("x/a.min.js" ∉ Dict.keys (collect found)).
Proof.
  apply (C4_minified_never_selected _ Demo.w0 "x/a.min.js" "js");
    reflexivity.
Defined.

(** Only the last [.css] is rewritten. *)
Lemma C5_witness :
  target_path "a.css/b.css" (JBool false)
    (World {["a.css/b.css" := "p { }"]} []) =
  (inr "a.css/b.min.css", World {["a.css/b.css" := "p { }"]} []) ∧
  target_path "a.css/b.css" (JBool true)
    (World {["a.css/b.css" := "p { }"]} []) =
  (inr "a.css/b.css", World {["a.css/b.css" := "p { }"]} []).
Proof.
  split.
  - apply (C5_target_path (World {["a.css/b.css" := "p { }"]} [])
             "a.css/b" "css" cssmin (JBool false)); reflexivity.
  - apply (C5_target_path (World {["a.css/b.css" := "p { }"]} [])
             "a.css/b" "css" cssmin (JBool true)); reflexivity.
Defined.

(** [x/a.js] is matched by [x/*], not in place, then by [x/*.js], in
    place: it has one task, in place, and the run writes [x/a.js] once and
    [x/a.min.js] not at all. *)
Lemma C6_witness :
  ∃ found w',
    _find_files [("x/*", JObject ∅);
                 ("x/*.js", JObject {["in_place" := JBool true]})]
                Demo.w0 = (inr found, w') ∧
    filter (λ t, t.1 = "x/a.js") (collect found) =
      [("x/a.js", (Demo.strip_blanks, JObject {["in_place" := JBool true]}))] ∧
    ∃ w2 tr,
      minify [("x/*", JObject ∅);
              ("x/*.js", JObject {["in_place" := JBool true]})] Demo.w0
      = (inr (), w2) ∧
      trace w2 = trace w' ++ tr ∧
      List.filter (writes_to "x/a.js") tr =
        [EWrite "x/a.js" "function(){return1;}"] ∧
      List.filter (writes_to "x/a.min.js") tr = [] ∧
      files w2 !! "x/a.min.js" = Some "12345".
Proof.
  destruct (C6_last_pattern_wins [("x/*", JObject ∅)] [] Demo.w0 "x/*.js"
              "x/a" "js" (JObject {["in_place" := JBool true]})
              Demo.strip_blanks)
    as (found & w' & Hfind & _ & Hone & Hrun).
  - apply list_elem_of_In. vm_compute. tauto.
  - intros pat' st' Hin. now apply elem_of_nil in Hin.
  - reflexivity.
  - reflexivity.
  - reflexivity.
  - exists found, w'. split; [exact Hfind|]. split; [exact Hone|].
    destruct (Hrun eq_refl "function(){ return 1; }") as [_ Hall];
      [reflexivity | discriminate |].
    destruct (minify [("x/*", JObject ∅);
                      ("x/*.js", JObject {["in_place" := JBool true]})]
                Demo.w0) as [[err|[]] w2] eqn:Hm.
    { vm_compute in Hm. discriminate Hm. }
    destruct (Hall w2) as (_ & Hd & tr & Htr & Hw & Hwd); [exact Hm|].
    exists w2, tr. split; [reflexivity|]. split; [exact Htr|].
    split; [exact Hw|]. split; [exact Hwd|]. exact Hd.
Defined.

Lemma C7_witness :
  _execute "x/empty.js" Demo.strip_blanks (JBool false) Demo.w0 =
  (inr (),
   World (files Demo.w0)
     (trace Demo.w0 ++
      [ERead "x/empty.js"; EPrint (Line ("NOO " +:+ "x/empty.js"))])).
Proof.
  apply (C7_empty_file_skipped Demo.w0 "x/empty.js"). reflexivity.
Defined.

(** A [Makefile] and a [.txt] file are not selected. *)
Lemma C8_witness :
  (∃ found w',
     _find_files [("x/*", JObject ∅)] Demo.w0 = (inr found, w') ∧
     files w' = files Demo.w0 ∧
     ("x/Makefile" ∉ (λ t : task, t.1.1) <$> found) ∧
     ("x/Makefile" ∉ Dict.keys (collect found))) ∧
  (∃ found w',
     _find_files [("x/*", JObject ∅)] Demo.w0 = (inr found, w') ∧
     files w' = files Demo.w0 ∧
     ("x/notes.txt" ∉ (λ t : task, t.1.1) <$> found) ∧
     ("x/notes.txt" ∉ Dict.keys (collect found))).
Proof.
  split.
  - apply (C8_unsupported_skipped _ Demo.w0 "x/Makefile"). left. reflexivity.
  - apply (C8_unsupported_skipped _ Demo.w0 "x/notes.txt"). right. reflexivity.
Defined.

Lemma C9_witness :
  ∃ found,
    let w1 := World (files Demo.w0)
                (trace Demo.w0 ++
                 globs_of (files Demo.w0) [("x/*", JObject ∅)]) in
    _find_files [("x/*", JObject ∅)] Demo.w0 = (inr found, w1) ∧
    minify [("x/*", JObject ∅)] Demo.w0 = run_tasks (collect found) w1 ∧
    (∀ p v, (p, v) ∈ collect found →
       is_Some (files Demo.w0 !! p) ∧
       ∃ pat st, (pat, st) ∈ [("x/*", JObject ∅)] ∧
         p ∈ glob (files Demo.w0) pat) ∧
    quiet (run_tasks (collect found)).
Proof.
  exact (C9_tasks_resolved_before_execution [("x/*", JObject ∅)] Demo.w0).
Defined.

(** The style sheet that the transform empties is written, empty. *)
Lemma C10_witness :
  ∃ pre, "x/b.css" = pre +:+ "." +:+ "css" ∧
    let target := if truthy (JBool false) then "x/b.css"
                  else pre +:+ ".min." +:+ "css" in
    _execute "x/b.css" cssmin (JBool false) Demo.w0 =
    (inr (),
     World (<[target := ""]> (files Demo.w0))
       (trace Demo.w0 ++
        [ERead "x/b.css"; EPrint (Line "x/b.css");
         EPrint (Summary target (len "p { }") 0 (S754_zero false));
         EWrite target ""])).
Proof.
  apply (C10_empty_result_written Demo.w0 "x/b.css" "css" "p { }" cssmin
           (JBool false)).
  - reflexivity.
  - discriminate.
  - reflexivity.
  - reflexivity.
  - reflexivity.
Defined.

End Examples.

(** * Further properties of the script *)

(** ** How a task ends *)

Module OutcomeFacts.
Import Str StrFacts Re ReFacts Minifier RunFacts Num ExecFacts.
Import DictFacts ResolveFacts WholeRunFacts Observe.
Section WithExternals.
Context {Ext : Externals}.

Lemma world_eta (w : world) : World (files w) (trace w) = w.
Proof. now destruct w. Qed.

(** The destination depends on the files only, and computing it leaves
    the world as it is. *)
Lemma target_path_frame (q : string) (ip : json) (w w' : world)
    (r : exn + string) :
  target_path q ip w = (r, w') →
  w' = w ∧ ∀ t, target_path q ip (World (files w) t) = (r, World (files w) t).
Proof.
  unfold target_path. destruct (negb (truthy ip)).
  - unfold mbind, M_bind. rewrite ext_run. unfold lift.
    intros [= <- <-]. split; [done|]. intros t. now rewrite ext_run.
  - intros [= <- <-]. split; [done|]. now intros t.
Qed.

Lemma call_execute_outcome (q : string) (h : handler) (st : json)
    (w w' : world) (r : exn + ()) :
  call_execute q h st w = (r, w') → outcome q h st w r w'.
Proof.
  unfold call_execute, mbind, M_bind, lift.
  destruct (bind_kwargs st) as [err|ip] eqn:Hb;
    [intros [= <- <-]; constructor|].
  unfold _execute. unfold mbind at 1. unfold M_bind at 1. unfold open_read.
  destruct (files w !! q) as [c|] eqn:Hq; [|intros [= <- <-]; constructor].
  destruct (String.eqb_spec c "") as [->|Hne].
  { run_step. intros [= <- <-]. rewrite <- app_assoc. now apply Skipped. }
  unfold mbind at 1. unfold M_bind at 1.
  destruct (target_path q ip _) as [[err|target] w2] eqn:Ht.
  { apply target_path_frame in Ht as [-> _]. intros [= <- <-].
    now apply Failed with c. }
  apply target_path_frame in Ht as [-> Ht]. cbn [files] in Ht.
  specialize (Ht (trace w)). rewrite world_eta in Ht.
  unfold mbind at 1. unfold M_bind at 1.
  destruct (percent _ _) as [err|pc].
  { intros [= <- <-]. now apply Failed with c. }
  run_step. intros [= <- <-]. rewrite <- !app_assoc.
  now apply Written with ip.
Qed.

(** The destination of a task that resolution yields ends on a registered
    extension. *)
Lemma target_registered (q : string) (h : handler) (ip : json) (w : world)
    (target : string) :
  eligible q h → is_Some (files w !! q) →
  target_path q ip w = (inr target, w) → registered_name target.
Proof.
  intros Hel Hf Ht.
  destruct (eligible_ext q h (files w) Hel Hf)
    as (pre & e & Hq & Hext & Hlit & _).
  destruct Hel as (pre' & e' & _ & _ & He' & Hh & _).
  assert (e' = e) as ->.
  { rewrite ext_of_file in Hext by done.
    destruct (contains "." (basename q)); congruence. }
  rewrite (target_path_run q e pre ip w Hext Hlit Hq) in Ht.
  injection Ht as <-. destruct (truthy ip).
  - now exists pre, e, h.
  - exists (pre +:+ ".min"), e, h. split; [apply min_split | done].
Qed.

End WithExternals.
End OutcomeFacts.

Section TaskProperties.
Import Str StrFacts Re ReFacts Minifier RunFacts Num NumFacts ExecFacts.
Import DictFacts ResolveFacts QuietFacts WholeRunFacts Observe OutcomeFacts.
Context {Ext : Externals}.


End TaskProperties.

(** ** What a whole run reads and writes *)

Module RunObserveFacts.
Import Str StrFacts Re ReFacts Minifier RunFacts Num ExecFacts.
Import DictFacts ResolveFacts WholeRunFacts Observe OutcomeFacts.
Section WithExternals.
Context {Ext : Externals}.

Lemma outcome_writes (q : string) (h : handler) (st : json) (w w' : world)
    (r : exn + ()) :
  outcome q h st w r w' → eligible q h →
  ∃ tr, trace w' = trace w ++ tr ∧
    (∀ x c, EWrite x c ∈ tr → registered_name x) ∧
    (∀ y, ¬ registered_name y → files w' !! y = files w !! y).
Proof.
  intros Hout Hel.
  inversion Hout as [e|Hf|e T Hf HT|T target ip pc Hf HT Hb Ht]; subst.
  - exists []. rewrite app_nil_r. split; [done|]. split; [|done].
    intros x c []%elem_of_nil.
  - eexists. split; [reflexivity|]. split; [|done]. intros x c.
    rewrite !elem_of_cons, elem_of_nil. intros [|[|[]]]; discriminate.
  - eexists. split; [reflexivity|]. split; [|done]. intros x c.
    rewrite !elem_of_cons, elem_of_nil. intros [|[]]; discriminate.
  - assert (registered_name target) as Hreg.
    { apply (target_registered q h ip w); eauto. }
    eexists. split; [reflexivity|]. split.
    + intros x c. rewrite !elem_of_cons, elem_of_nil.
      intros [|[|[|[[= -> _]|[]]]]]; try discriminate. exact Hreg.
    + intros y Hy. cbn [files]. apply lookup_insert_ne. now intros ->.
Qed.

Lemma run_tasks_writes (ts : list (string * (handler * json))) :
  (∀ q v, (q, v) ∈ ts → eligible q v.1) →
  ∀ w r w', run_tasks ts w = (r, w') →
    ∃ tr, trace w' = trace w ++ tr ∧
      (∀ x c, EWrite x c ∈ tr → registered_name x) ∧
      (∀ y, ¬ registered_name y → files w' !! y = files w !! y).
Proof.
  induction ts as [|[q [h st]] ts IH]; intros Hall w r w'.
  - intros [= <- <-]. exists []. rewrite app_nil_r. split; [done|].
    split; [|done]. intros x c []%elem_of_nil.
  - rewrite run_tasks_cons.
    destruct (call_execute q h st w) as [[err|[]] w1] eqn:Hstep.
    + intros [= <- <-]. apply call_execute_outcome in Hstep.
      apply (outcome_writes q h st w w1 _ Hstep).
      apply (Hall q (h, st)), list_elem_of_here.
    + intros Hrest. apply call_execute_outcome in Hstep.
      destruct (outcome_writes q h st w w1 _ Hstep) as (tr1 & Ht1 & Hw1 & Hf1).
      { apply (Hall q (h, st)), list_elem_of_here. }
      destruct (IH (λ q' v Hin, Hall q' v (list_elem_of_further _ _ _ Hin))
                  w1 r w' Hrest) as (tr2 & Ht2 & Hw2 & Hf2).
      exists (tr1 ++ tr2). split; [now rewrite Ht2, Ht1, app_assoc|]. split.
      * intros x c [Hin|Hin]%elem_of_app; eauto.
      * intros y Hy. rewrite Hf2 by done. now apply Hf1.
Qed.

Lemma outcome_reads (q : string) (h : handler) (st : json) (w w' : world)
    (r : exn + ()) (p : string) :
  outcome q h st w r w' →
  ∃ tr, trace w' = trace w ++ tr ∧
    (List.length (List.filter (reads p) tr) <= 1)%nat ∧
    (p ≠ q → List.filter (reads p) tr = []).
Proof.
  intros Hout. inversion Hout; subst; eexists.
  - split; [symmetry; apply app_nil_r|]. split; [simpl; lia | done].
  - split; [reflexivity|]. simpl.
    destruct (String.eqb_spec q p); split; simpl; try lia; congruence.
  - split; [reflexivity|]. simpl.
    destruct (String.eqb_spec q p); split; simpl; try lia; congruence.
  - split; [reflexivity|]. simpl.
    destruct (String.eqb_spec q p); split; simpl; try lia; congruence.
Qed.

Lemma run_tasks_reads (ts : list (string * (handler * json))) :
  NoDup (Dict.keys ts) →
  ∀ w r w' p, run_tasks ts w = (r, w') →
    ∃ tr, trace w' = trace w ++ tr ∧
      (List.length (List.filter (reads p) tr) <= 1)%nat ∧
      (p ∉ Dict.keys ts → List.filter (reads p) tr = []).
Proof.
  unfold Dict.keys.
  induction ts as [|[q [h st]] ts IH]; intros Hnd w r w' p.
  - intros [= <- <-]. exists []. rewrite app_nil_r. split; [done|].
    split; [simpl; lia | done].
  - simpl in Hnd. apply NoDup_cons in Hnd as [Hq Hnd].
    rewrite run_tasks_cons.
    destruct (call_execute q h st w) as [[err|[]] w1] eqn:Hstep.
    + intros [= <- <-]. apply call_execute_outcome in Hstep.
      destruct (outcome_reads q h st w w1 _ p Hstep) as (tr1 & Ht1 & Hl1 & Hn1).
      exists tr1. split; [done|]. split; [done|].
      intros Hp. apply Hn1. intros ->. apply Hp. simpl. apply list_elem_of_here.
    + intros Hrest. apply call_execute_outcome in Hstep.
      destruct (outcome_reads q h st w w1 _ p Hstep) as (tr1 & Ht1 & Hl1 & Hn1).
      destruct (IH Hnd w1 r w' p Hrest) as (tr2 & Ht2 & Hl2 & Hn2).
      exists (tr1 ++ tr2). split; [now rewrite Ht2, Ht1, app_assoc|].
      rewrite List.filter_app, List.length_app. split.
      * destruct (decide (p = q)) as [->|Hne].
        -- rewrite (Hn2 Hq). simpl. lia.
        -- rewrite (Hn1 Hne). simpl. lia.
      * intros Hp. simpl in Hp. apply not_elem_of_cons in Hp as [Hne Hp].
        now rewrite (Hn1 Hne), (Hn2 Hp).
Qed.

Lemma globs_no_reads (fs : gmap string string) (ins : list (string * json))
    (p : string) :
  List.filter (reads p) (globs_of fs ins) = [].
Proof. induction ins as [|[pat st] ins IH]; [done | exact IH]. Qed.

Lemma globs_no_writes (fs : gmap string string) (ins : list (string * json))
    (x c : string) :
  EWrite x c ∉ globs_of fs ins.
Proof.
  induction ins as [|[pat st] ins IH]; simpl.
  - apply not_elem_of_nil.
  - apply not_elem_of_cons. split; [discriminate | exact IH].
Qed.

Lemma collect_all_eligible (fs : gmap string string)
    (ins : list (string * json)) (q : string) (v : handler * json) :
  (q, v) ∈ collect (found_of fs ins) → eligible q v.1.
Proof.
  intros Hin. apply collect_elem_of in Hin. now apply found_eligible in Hin.
Qed.

End WithExternals.
End RunObserveFacts.

Section RunProperties.
Import Str StrFacts Re ReFacts Minifier RunFacts Num NumFacts ExecFacts.
Import DictFacts ResolveFacts QuietFacts WholeRunFacts Observe OutcomeFacts.
Import RunObserveFacts.
Context {Ext : Externals}.

(** X2.  Whatever the configuration and however the run ends, [minify]
    writes only to names that end on a dot and a registered extension
    ([js], [css], [html], [jinja2]): every file with another name is after
    the run what it was before it. *)
Theorem X2_run_writes_registered_names_only
    (ins : list (string * json)) (w w' : world) (r : exn + ()) :
  minify ins w = (r, w') →
  ∃ tr, trace w' = trace w ++ tr ∧
    (∀ x c, EWrite x c ∈ tr → registered_name x) ∧
    (∀ y, ¬ registered_name y → files w' !! y = files w !! y).
Proof.
  unfold minify, mbind, M_bind. rewrite find_files_run. intros Hrun.
  apply run_tasks_writes in Hrun as (tr & Ht & Hw & Hf).
  2:{ intros q v. apply collect_all_eligible. }
  cbn [files trace] in Ht, Hf.
  exists (globs_of (files w) ins ++ tr). split; [now rewrite Ht, app_assoc|].
  split; [|done].
  intros x c [Hin|Hin]%elem_of_app; [|eauto].
  now apply globs_no_writes in Hin.
Qed.

(** X3.  In one run no file is read twice, however many patterns match it
    and whatever [glob] returns. *)
Theorem X3_each_file_read_at_most_once
    (ins : list (string * json)) (w w' : world) (r : exn + ()) (p : string) :
  minify ins w = (r, w') →
  ∃ tr, trace w' = trace w ++ tr ∧
    (List.length (List.filter (reads p) tr) <= 1)%nat.
Proof.
  unfold minify, mbind, M_bind. rewrite find_files_run. intros Hrun.
  apply (run_tasks_reads _ (collect_NoDup _) _ _ _ p) in Hrun
    as (tr & Ht & Hl & _).
  cbn [trace] in Ht.
  exists (globs_of (files w) ins ++ tr). split; [now rewrite Ht, app_assoc|].
  now rewrite List.filter_app, globs_no_reads.
Qed.

End RunProperties.

(** ** More on names and on the task dict *)

Module NameFacts.
Import Str StrFacts.

Lemma rsplit_last_none (c : ascii) (s : string) :
  contains c s = false → rsplit_last c s = s.
Proof.
  destruct s as [|d s]; [done|]. cbn [contains rsplit_last].
  intros [Hd Hs]%orb_false_iff. now rewrite Hs, Hd.
Qed.

(** What follows the last [c] of a text goes on with what is appended,
    when that holds no [c]. *)
Lemma rsplit_last_app_clean (c : ascii) (a b : string) :
  contains c b = false → rsplit_last c (a +:+ b) = rsplit_last c a +:+ b.
Proof.
  intros Hb. induction a as [|d a IH].
  - simpl. now apply rsplit_last_none.
  - change (String d a +:+ b) with (String d (a +:+ b)).
    cbn [rsplit_last]. rewrite contains_app, Hb, orb_false_r.
    destruct (contains c a); [exact IH|].
    now destruct (Ascii.eqb c d).
Qed.

Lemma rsplit_last_after (c : ascii) (a e : string) :
  contains c e = false → rsplit_last c (a +:+ String c e) = e.
Proof.
  intros He. induction a as [|d a IH].
  - simpl. now rewrite He, Ascii.eqb_refl.
  - change (String d a +:+ String c e) with (String d (a +:+ String c e)).
    cbn [rsplit_last]. rewrite contains_app. cbn [contains].
    now rewrite Ascii.eqb_refl, orb_true_r.
Qed.

Lemma contains_after (c : ascii) (a e : string) :
  contains c (a +:+ String c e) = true.
Proof.
  rewrite contains_app. cbn [contains].
  now rewrite Ascii.eqb_refl, orb_true_r.
Qed.

End NameFacts.

Module OrderFacts.
Import Minifier Observe DictFacts ResolveFacts.
Section WithExternals.
Context {Ext : Externals}.

Lemma keys_set_in {V} (k : string) (v : V) (d : list (string * V)) :
  k ∈ Dict.keys d → Dict.keys (Dict.set k v d) = Dict.keys d.
Proof.
  unfold Dict.keys. induction d as [|[k0 v0] d IH]; simpl.
  - intros []%elem_of_nil.
  - destruct (String.eqb_spec k k0) as [->|Hne]; [done|].
    intros [|Hin]%elem_of_cons; [done|]. cbn [fmap list_fmap fst]. f_equal.
    now apply IH.
Qed.

Lemma keys_set_notin {V} (k : string) (v : V) (d : list (string * V)) :
  k ∉ Dict.keys d → Dict.keys (Dict.set k v d) = Dict.keys d ++ [k].
Proof.
  unfold Dict.keys. induction d as [|[k0 v0] d IH]; simpl; [done|].
  intros [Hne Hnotin]%not_elem_of_cons.
  apply String.eqb_neq in Hne. rewrite Hne. cbn [fmap list_fmap fst app].
  f_equal. now apply IH.
Qed.

Lemma filter_all {A} (P : A → Prop) `{!∀ x, Decision (P x)} (l : list A) :
  (∀ x, x ∈ l → P x) → filter P l = l.
Proof.
  induction l as [|x l IH]; intros Hall; [done|].
  rewrite filter_cons_True by (apply Hall, list_elem_of_here).
  f_equal. apply IH. intros y Hy. now apply Hall, list_elem_of_further.
Qed.

(** The keys of the task dict: those it had, then the paths yielded that
    it had not, in the order in which they come first. *)
Lemma collect_acc_order (acc : list (string * (handler * json)))
    (found : list task) :
  Dict.keys
    (foldl (λ tasks '(path, h, settings), Dict.set path (h, settings) tasks)
           acc found) =
  Dict.keys acc ++
  filter (λ x, x ∉ Dict.keys acc) (first_seen ((λ t : task, t.1.1) <$> found)).
Proof.
  revert acc. induction found as [|[[q h] st] found IH]; intros acc.
  - simpl. now rewrite app_nil_r.
  - cbn [foldl fmap list_fmap first_seen]. rewrite IH. simpl.
    destruct (decide (q ∈ Dict.keys acc)) as [Hin|Hnotin].
    + rewrite (keys_set_in q _ acc Hin).
      rewrite filter_cons_False by tauto. f_equal.
      rewrite list_filter_filter. apply list_filter_iff.
      intros x. split; [|tauto]. intros Hx. split; [done|]. now intros ->.
    + rewrite (keys_set_notin q _ acc Hnotin).
      rewrite filter_cons_True by done. rewrite <- app_assoc. simpl.
      f_equal. f_equal. rewrite list_filter_filter. apply list_filter_iff.
      intros x. rewrite not_elem_of_app, list_elem_of_singleton. tauto.
Qed.

End WithExternals.
End OrderFacts.

Section ResolutionProperties.
Import Str StrFacts NameFacts Re ReFacts Minifier RunFacts Num NumFacts.
Import ExecFacts DictFacts ResolveFacts WholeRunFacts Observe OrderFacts.
Context {Ext : Externals}.

(** X4.  Resolution yields exactly the eligible files: a path with a
    handler and settings is yielded if and only if a pattern with these
    settings matches the path, the path is a regular file with a dotted
    extension that is registered with this handler, and the path does not
    end on [.min.] and that extension. *)
Theorem X4_find_files_exact
    (ins : list (string * json)) (w : world) (p : string) (h : handler)
    (st : json) :
  ∃ found w', _find_files ins w = (inr found, w') ∧
    ((p, h, st) ∈ found ↔
     (∃ pat, (pat, st) ∈ ins ∧ p ∈ glob (files w) pat) ∧
     ∃ e, _ext p w = (inr (Some e), w) ∧
       handlers_get (Some e) = Some h ∧
       endswith p (".min." +:+ e) = false).
Proof.
  eexists _, _. split; [apply find_files_run|]. split.
  - intros (pat & st' & h' & [= -> ->] & Hin & Hg & Hh & Hguard)%found_of_inv.
    simpl in *. split; [now exists pat|].
    destruct (handlers_get_inv _ _ Hh) as (e & He & _).
    exists e. rewrite ext_run, He. rewrite He in Hh, Hguard. done.
  - intros [(pat & Hin & Hg) (e & He & Hh & Hguard)].
    rewrite ext_run in He. injection He as He.
    unfold found_of. apply list_elem_of_In, in_flat_map.
    exists (pat, st). split; [now apply list_elem_of_In|].
    apply in_flat_map. exists p. split; [now apply list_elem_of_In|].
    rewrite (select_of_eligible _ st p e h He Hh Hguard). now left.
Qed.

(** X5.  The task dict lists each path once, in the order in which the
    paths were first yielded: a path that a later pattern matches again
    keeps its place (and takes the later settings), so tasks are executed
    in the order of first match. *)
Theorem X5_tasks_in_order_of_first_match (found : list task) :
  Dict.keys (collect found) = first_seen ((λ t : task, t.1.1) <$> found).
Proof.
  unfold collect. rewrite collect_acc_order. simpl.
  apply filter_all. intros x _. apply not_elem_of_nil.
Qed.

(** X6.  The name [pre.min.e] that a task not in place writes to is never
    yielded, in whatever file system and by whatever pattern: the output of
    one run is not minified by the next. *)
Theorem X6_output_name_never_selected
    (ins : list (string * json)) (w : world) (pre e : string) (h : handler) :
  handlers_get (Some e) = Some h →
  ∃ found w', _find_files ins w = (inr found, w') ∧
    (pre +:+ ".min." +:+ e) ∉ (λ t : task, t.1.1) <$> found.
Proof.
  intros Hh. eexists _, _. split; [apply find_files_run|].
  intros (t & Hpath & Ht)%list_elem_of_fmap.
  apply found_of_inv in Ht as (_ & _ & h' & _ & _ & _ & Hh' & Hguard).
  rewrite <- Hpath in Hh', Hguard.
  destruct (handlers_get_inv _ _ Hh') as (e' & He' & _).
  destruct (ext_of_Some _ _ _ He') as (_ & _ & _ & Hrs & _).
  assert (contains "." e = false ∧ contains "/" e = false) as [Hdot Hslash].
  { destruct (handlers_get_inv _ _ Hh) as (e0 & [= <-] & [-> | [-> | [-> | ->]]]);
      done. }
  assert (e' = e) as ->.
  { rewrite Hrs. unfold basename. rewrite min_split.
    rewrite rsplit_last_app_clean by (simpl; now rewrite Hslash).
    now apply rsplit_last_after. }
  rewrite He' in Hguard. unfold fmt in Hguard. simpl default in Hguard.
  rewrite endswith_app in Hguard. discriminate.
Qed.

(** X7.  [_ext] returns without an exception and leaves the world as it
    is.  It returns [None] exactly for a path that is not a regular file or
    whose base name holds no dot; an extension it returns holds neither a
    dot nor a slash, and the path ends on a dot and that extension. *)
Theorem X7_ext_result (p : string) (w : world) :
  ∃ o, _ext p w = (inr o, w) ∧
    (o = None ↔ files w !! p = None ∨ contains "." (basename p) = false) ∧
    (∀ e, o = Some e →
       contains "." e = false ∧ contains "/" e = false ∧
       endswith p ("." +:+ e) = true).
Proof.
  exists (ext_of (files w) p). split; [apply ext_run|]. split.
  - unfold ext_of. case_bool_decide as Hf.
    + destruct Hf as [c Hc]. rewrite Hc.
      destruct (contains "." (basename p)); split; try done;
        [intros [|]; done | now right].
    + rewrite <- eq_None_not_Some in Hf. split; [now left | done].
  - intros e He.
    destruct (ext_of_Some _ _ _ He) as (_ & Hdot & Hbase & Hrs & pre & Hp).
    split; [done|]. split.
    + destruct (rsplit_last_split "." _ Hbase) as [stem Hstem].
      pose proof (rsplit_last_clean "/" p) as Hclean. fold (basename p) in Hclean.
      rewrite Hstem, contains_app in Hclean.
      apply orb_false_iff in Hclean as [_ Hclean]. cbn [contains] in Hclean.
      apply orb_false_iff in Hclean as [_ Hclean]. now rewrite Hrs.
    + rewrite Hp. apply endswith_app.
Qed.

(** X8.  When no pattern matches anything (an empty configuration
    included), the run calls [glob] once for each pattern and ends without
    an exception: nothing is read, printed or written. *)
Theorem X8_no_match_no_effect (ins : list (string * json)) (w : world) :
  (∀ pat st, (pat, st) ∈ ins → glob (files w) pat = []) →
  minify ins w =
  (inr (), World (files w) (trace w ++ globs_of (files w) ins)).
Proof.
  intros Hnone. unfold minify, mbind, M_bind. rewrite find_files_run.
  assert (found_of (files w) ins = []) as ->; [|reflexivity].
  unfold found_of. induction ins as [|[pat st] ins IH]; [done|].
  cbn [flat_map]. rewrite (Hnone pat st) by apply list_elem_of_here.
  simpl. apply IH. intros pat' st' Hin. apply (Hnone pat' st').
  now apply list_elem_of_further.
Qed.

End ResolutionProperties.

(** ** Failures, names without an extension and runs that are not in place *)

Module EdgeFacts.
Import Str StrFacts NameFacts Re ReFacts Minifier RunFacts Num NumFacts.
Import ExecFacts DictFacts ResolveFacts WholeRunFacts Observe OutcomeFacts.
Import RunObserveFacts.
Section WithExternals.
Context {Ext : Externals}.

(** The substitution leaves a text as it is when the text does not end on
    the literal, a final newline apart. *)
Lemma sub_literal_eol_none (lit repl s : string) :
  (∀ a, s ≠ a +:+ lit) → (∀ a, s ≠ a +:+ lit +:+ String newline "") →
  sub_literal_eol lit repl s = s.
Proof.
  induction s as [|c s IH]; intros H1 H2.
  - cbn [sub_literal_eol].
    destruct (String.eqb_spec "" lit) as [E|_]; [now destruct (H1 "")|].
    destruct (String.eqb_spec "" (lit +:+ String newline "")) as [E|_];
      [now destruct (H2 "") | reflexivity].
  - rewrite sub_literal_eol_cons.
    destruct (String.eqb_spec (String c s) lit) as [E|_];
      [now destruct (H1 "")|].
    destruct (String.eqb_spec (String c s) (lit +:+ String newline ""))
      as [E|_]; [now destruct (H2 "")|].
    f_equal. apply IH.
    + intros a ->. now apply (H1 (String c a)).
    + intros a ->. now apply (H2 (String c a)).
Qed.

(** A path whose base name holds no dot does not end on a text with a dot
    and without a slash. *)
Lemma no_dot_no_suffix (p t : string) :
  contains "." (basename p) = false →
  contains "/" t = false → contains "." t = true →
  ∀ a, p ≠ a +:+ t.
Proof.
  intros Hbase Hslash Hdot a ->. unfold basename in Hbase.
  rewrite rsplit_last_app_clean, contains_app, Hdot, orb_true_r in Hbase
    by done.
  discriminate.
Qed.

Lemma target_path_no_ext (p : string) (ip : json) (w : world) :
  is_Some (files w !! p) → contains "." (basename p) = false →
  target_path p ip w = (inr p, w).
Proof.
  intros Hf Hbase. unfold target_path.
  destruct (truthy ip); simpl; [reflexivity|].
  unfold mbind, M_bind. rewrite ext_run, ext_of_file, Hbase by done.
  unfold lift, fmt, re_sub. simpl default.
  match goal with
  | |- context [parse_dot_literal_eol ?x] =>
      change (parse_dot_literal_eol x) with (Some ".None")
  end.
  match goal with
  | |- context [contains "\" ?x] => change (contains "\" x) with false
  end.
  cbv iota.
  rewrite sub_literal_eol_none; [reflexivity| |].
  - now apply no_dot_no_suffix.
  - now apply no_dot_no_suffix.
Qed.

(** A path that resolution yields is not the name of a minified file. *)
Lemma eligible_not_minified (q : string) (h : handler) :
  eligible q h → ¬ minified_name q.
Proof.
  intros (pre & e & Hq & Hdot & He & Hh & Hg) (pre' & e' & h' & Hq' & Hh').
  assert (contains "." e' = false ∧ contains "/" e' = false) as [Hd Hs].
  { destruct (handlers_get_inv _ _ Hh')
      as (e0 & [= <-] & [-> | [-> | [-> | ->]]]); done. }
  assert (e = e') as ->.
  { rewrite He, Hq'. unfold basename. rewrite min_split.
    rewrite rsplit_last_app_clean by (simpl; now rewrite Hs).
    now apply rsplit_last_after. }
  rewrite Hq', endswith_app in Hg. discriminate.
Qed.

Lemma outcome_writes_min (q : string) (h : handler) (st : json)
    (w w' : world) (r : exn + ()) :
  outcome q h st w r w' → eligible q h →
  (∀ ip, bind_kwargs st = inr ip → truthy ip = false) →
  ∃ tr, trace w' = trace w ++ tr ∧
    (∀ x c, EWrite x c ∈ tr → minified_name x) ∧
    (∀ y, ¬ minified_name y → files w' !! y = files w !! y).
Proof.
  intros Hout Hel Hnip.
  inversion Hout as [e|Hf|e T Hf HT|T target ip pc Hf HT Hb Ht]; subst.
  - exists []. rewrite app_nil_r. split; [done|]. split; [|done].
    intros x c []%elem_of_nil.
  - eexists. split; [reflexivity|]. split; [|done]. intros x c.
    rewrite !elem_of_cons, elem_of_nil. intros [|[|[]]]; discriminate.
  - eexists. split; [reflexivity|]. split; [|done]. intros x c.
    rewrite !elem_of_cons, elem_of_nil. intros [|[]]; discriminate.
  - assert (minified_name target) as Hmin.
    { destruct (eligible_ext q h (files w) Hel ltac:(eauto))
        as (pre & e & Hq & Hext & Hlit & _).
      destruct Hel as (pre' & e' & _ & Hdot & He' & Hh & _).
      assert (e' = e) as ->.
      { rewrite ext_of_file in Hext by eauto. rewrite Hdot in Hext.
        congruence. }
      rewrite (target_path_run q e pre ip w Hext Hlit Hq) in Ht.
      rewrite (Hnip ip Hb) in Ht. injection Ht as <-. now exists pre, e, h. }
    eexists. split; [reflexivity|]. split.
    + intros x c. rewrite !elem_of_cons, elem_of_nil.
      intros [|[|[|[[= -> _]|[]]]]]; try discriminate. exact Hmin.
    + intros y Hy. cbn [files]. apply lookup_insert_ne. now intros ->.
Qed.

Lemma run_tasks_writes_min (ts : list (string * (handler * json))) :
  (∀ q v, (q, v) ∈ ts →
     eligible q v.1 ∧ ∀ ip, bind_kwargs v.2 = inr ip → truthy ip = false) →
  ∀ w r w', run_tasks ts w = (r, w') →
    ∃ tr, trace w' = trace w ++ tr ∧
      (∀ x c, EWrite x c ∈ tr → minified_name x) ∧
      (∀ y, ¬ minified_name y → files w' !! y = files w !! y).
Proof.
  induction ts as [|[q [h st]] ts IH]; intros Hall w r w'.
  - intros [= <- <-]. exists []. rewrite app_nil_r. split; [done|].
    split; [|done]. intros x c []%elem_of_nil.
  - rewrite run_tasks_cons.
    destruct (Hall q (h, st) (list_elem_of_here _ _)) as [Hel Hnip].
    destruct (call_execute q h st w) as [[err|[]] w1] eqn:Hstep.
    + intros [= <- <-]. apply call_execute_outcome in Hstep.
      now apply (outcome_writes_min q h st w w1 _ Hstep).
    + intros Hrest. apply call_execute_outcome in Hstep.
      destruct (outcome_writes_min q h st w w1 _ Hstep Hel Hnip)
        as (tr1 & Ht1 & Hw1 & Hf1).
      destruct (IH (λ q' v Hin, Hall q' v (list_elem_of_further _ _ _ Hin))
                  w1 r w' Hrest) as (tr2 & Ht2 & Hw2 & Hf2).
      exists (tr1 ++ tr2). split; [now rewrite Ht2, Ht1, app_assoc|]. split.
      * intros x c [Hin|Hin]%elem_of_app; eauto.
      * intros y Hy. rewrite Hf2 by done. now apply Hf1.
Qed.

(** What [minify] leaves of the files, for [main] to pass on. *)
Lemma minify_frame (ins : list (string * json)) (w w' : world)
    (r : exn + ()) :
  minify ins w = (r, w') →
  ∃ tr, trace w' = trace w ++ tr ∧
    (∀ x c, EWrite x c ∈ tr → registered_name x) ∧
    (∀ y, ¬ registered_name y → files w' !! y = files w !! y).
Proof.
  unfold minify, mbind, M_bind. rewrite find_files_run. intros Hrun.
  apply run_tasks_writes in Hrun as (tr & Ht & Hw & Hf).
  2:{ intros q v. apply collect_all_eligible. }
  cbn [files trace] in Ht, Hf.
  exists (globs_of (files w) ins ++ tr). split; [now rewrite Ht, app_assoc|].
  split; [|done].
  intros x c [Hin|Hin]%elem_of_app; [|eauto].
  now apply globs_no_writes in Hin.
Qed.

End WithExternals.
End EdgeFacts.

Section EdgeProperties.
Import Str StrFacts NameFacts Re ReFacts Minifier RunFacts Num NumFacts.
Import ExecFacts DictFacts ResolveFacts WholeRunFacts Observe OutcomeFacts.
Import RunObserveFacts EdgeFacts.
Context {Ext : Externals}.

(** X9.  A run raises exactly when one of its tasks does: the tasks before
    that one returned, the exception and the world are those of that task,
    and no task after it is executed. *)
Theorem X9_run_stops_at_first_failure
    (ts : list (string * (handler * json))) (w w' : world) (e : exn) :
  run_tasks ts w = (inl e, w') ↔
  ∃ l1 q h st l2 w1,
    ts = l1 ++ (q, (h, st)) :: l2 ∧
    run_tasks l1 w = (inr (), w1) ∧
    call_execute q h st w1 = (inl e, w').
Proof.
  split.
  - revert w. induction ts as [|[q [h st]] ts IH]; intros w; [discriminate|].
    rewrite run_tasks_cons.
    destruct (call_execute q h st w) as [[err|[]] w1] eqn:Hstep.
    + intros [= <- <-]. now exists [], q, h, st, ts, w.
    + intros (l1 & q' & h' & st' & l2 & w2 & -> & Hl1 & Hq)%IH.
      exists ((q, (h, st)) :: l1), q', h', st', l2, w2.
      split; [done|]. split; [|done]. now rewrite run_tasks_cons, Hstep.
  - intros (l1 & q & h & st & l2 & w1 & -> & Hl1 & Hq).
    now rewrite run_tasks_app, Hl1, run_tasks_cons, Hq.
Qed.

(** X10.  Without [in_place], a file whose base name holds no dot is
    written over: the regular expression is built from [None], matches
    nothing, and the destination is the path itself.  ([minify] never
    passes such a path; this is [_execute] called on its own.) *)
Theorem X10_no_extension_overwrites_source
    (p T : string) (h : handler) (ip : json) (w : world) :
  files w !! p = Some T → T ≠ "" →
  contains "." (basename p) = false →
  len (h T) <= maxsize →
  ∃ pc, _execute p h ip w =
    (inr (),
     World (<[p := h T]> (files w))
       (trace w ++ [ERead p; EPrint (Line p);
                    EPrint (Summary p (len T) (len (h T)) pc);
                    EWrite p (h T)])).
Proof.
  intros Hf HT Hbase Hlen.
  destruct (percent_ok (len (h T)) (len T)) as [pc Hpc].
  { now apply len_pos. }
  { split; [apply len_nonneg | done]. }
  exists pc. unfold _execute. unfold mbind at 1. unfold M_bind at 1.
  unfold open_read. rewrite Hf.
  apply String.eqb_neq in HT. rewrite HT.
  unfold mbind at 1. unfold M_bind at 1.
  rewrite (target_path_no_ext p ip (World (files w) (trace w ++ [ERead p])))
    by (cbn [files]; eauto || done).
  rewrite Hpc. run_step. rewrite <- !app_assoc. reflexivity.
Qed.

(** X11.  When no settings of the configuration ask for [in_place], a run
    writes only to names that end on [.min.] and a registered extension,
    and no file that resolution yielded is changed, however the run
    ends: the sources are kept. *)
Theorem X11_sources_kept_unless_in_place
    (ins : list (string * json)) (w w' : world) (r : exn + ()) :
  (∀ pat st ip, (pat, st) ∈ ins → bind_kwargs st = inr ip →
     truthy ip = false) →
  minify ins w = (r, w') →
  ∃ tr, trace w' = trace w ++ tr ∧
    (∀ x c, EWrite x c ∈ tr → minified_name x) ∧
    (∀ y, ¬ minified_name y → files w' !! y = files w !! y) ∧
    (∀ p h st, (p, h, st) ∈ found_of (files w) ins →
       files w' !! p = files w !! p).
Proof.
  intros Hnip. unfold minify, mbind, M_bind. rewrite find_files_run.
  intros Hrun.
  apply run_tasks_writes_min in Hrun as (tr & Ht & Hw & Hfr).
  2:{ intros q v Hin. split; [now apply (collect_all_eligible (files w) ins)|].
      apply collect_elem_of in Hin.
      apply found_of_inv in Hin as (pat & st & h' & [= _ ->] & Hin & _).
      intros ip. now apply (Hnip pat). }
  cbn [files trace] in Ht, Hfr.
  exists (globs_of (files w) ins ++ tr). split; [now rewrite Ht, app_assoc|].
  split; [|split; [done|]].
  - intros x c [Hin|Hin]%elem_of_app; [|eauto].
    now apply globs_no_writes in Hin.
  - intros p h st Hin. apply Hfr.
    apply (eligible_not_minified p h). now apply found_eligible in Hin.
Qed.

(** X12.  The percentage of two lengths of Python strings, the source not
    empty, is computed without an exception, also when the result is
    longer than the source: neither the division nor [int] overflows. *)
Theorem X12_percent_never_raises (m s : Z) :
  0 < s → 0 <= m <= maxsize → ∃ f, percent m s = inr f.
Proof. intros Hs Hm. now apply percent_ok. Qed.

(** X13.  For a result that is not longer than its source (lengths below
    [2 ^ 53 / 1000]), the integer under the percentage lies between [0] and
    [1000]; it is [1000] only when nothing was saved, and it is [0] exactly
    when the result is shorter than a thousandth of the source, not only
    when the result is empty. *)
Theorem X13_percent_range (m s : Z) :
  0 < s → 0 <= m <= s → 1000 * s < 2 ^ 53 →
  ∃ k, per_mille m s = inr k ∧ percent m s = tenths k ∧
    0 <= k <= 1000 ∧ (k = 1000 ↔ m = s) ∧ (k = 0 ↔ 1000 * m < s).
Proof.
  intros Hs Hm Hlt. exists (spec_per_mille m s).
  assert (per_mille m s = inr (spec_per_mille m s)) as Hk
    by (apply per_mille_exact; lia).
  split; [done|]. split; [unfold percent; now rewrite Hk|].
  unfold spec_per_mille.
  assert (0 <= 1000 * m / s) as H0 by (apply Z.div_pos; lia).
  assert (1000 * m / s <= 1000) as H1.
  { apply Z.div_le_upper_bound; lia. }
  split; [lia|]. split.
  - split.
    + intros Hq. pose proof (Z.mul_div_le (1000 * m) s Hs). nia.
    + intros ->. apply Z.div_mul. lia.
  - rewrite Z.div_small_iff by lia. lia.
Qed.

End EdgeProperties.

(** ** The entry point *)

Section MainProperties.
Import Str StrFacts Minifier RunFacts Observe EdgeFacts Main.
Context {Ext : Externals}.
Variable json_loads : string → exn + document.



End MainProperties.

(** ** The further properties on the files of the example *)

Section FurtherExamples.
Import Str Minifier Num Observe Main.
#[local] Existing Instance Demo.externals.


Lemma X2_witness :
  ∃ tr, trace DemoMain.after_css = trace Demo.w0 ++ tr ∧
    (∀ x c, EWrite x c ∈ tr → registered_name x) ∧
    (∀ y, ¬ registered_name y →
       files DemoMain.after_css !! y = files Demo.w0 !! y).
Proof.
  apply (X2_run_writes_registered_names_only DemoMain.css Demo.w0
           DemoMain.after_css (inr ())).
  now vm_compute.
Defined.

Lemma X3_witness :
  ∃ tr, trace DemoMain.after_css = trace Demo.w0 ++ tr ∧
    (List.length (List.filter (reads "x/b.css") tr) <= 1)%nat.
Proof.
  apply (X3_each_file_read_at_most_once DemoMain.css Demo.w0
           DemoMain.after_css (inr ())).
  now vm_compute.
Defined.

(** [x/a.min.js] is there and matches the pattern, and is not selected. *)
Lemma X6_witness :
  ∃ found w', _find_files [("x/*", JObject ∅)] Demo.w0 = (inr found, w') ∧
    ("x/a" +:+ ".min." +:+ "js") ∉ (λ t : task, t.1.1) <$> found.
Proof.
  apply (X6_output_name_never_selected [("x/*", JObject ∅)] Demo.w0
           "x/a" "js" Demo.strip_blanks).
  reflexivity.
Defined.

Lemma X8_witness :
  minify [("y/*", JObject ∅)] Demo.w0 =
  (inr (),
   World (files Demo.w0)
     (trace Demo.w0 ++ globs_of (files Demo.w0) [("y/*", JObject ∅)])).
Proof.
  apply (X8_no_match_no_effect [("y/*", JObject ∅)] Demo.w0).
  intros pat st [= -> ->]%list_elem_of_singleton. now vm_compute.
Defined.

(** The second task fails on a file that is not there: the style sheet
    after it is not touched. *)
Lemma X9_witness :
  run_tasks [("x/empty.js", (Demo.strip_blanks, JObject ∅));
             ("x/missing.js", (Demo.strip_blanks, JObject ∅));
             ("x/b.css", (cssmin, JObject ∅))] Demo.w0 =
  (inl OSError,
   World Demo.fs0 [ERead "x/empty.js"; EPrint (Line "NOO x/empty.js")]).
Proof.
  apply (X9_run_stops_at_first_failure
           [("x/empty.js", (Demo.strip_blanks, JObject ∅));
            ("x/missing.js", (Demo.strip_blanks, JObject ∅));
            ("x/b.css", (cssmin, JObject ∅))] Demo.w0).
  exists [("x/empty.js", (Demo.strip_blanks, JObject ∅))], "x/missing.js",
    Demo.strip_blanks, (JObject ∅), [("x/b.css", (cssmin, JObject ∅))],
    (World Demo.fs0 [ERead "x/empty.js"; EPrint (Line "NOO x/empty.js")]).
  split; [reflexivity|]. split; now vm_compute.
Defined.

(** The [Makefile] is written over with what the handler makes of it. *)
Lemma X10_witness :
  ∃ pc, _execute "x/Makefile" Demo.strip_blanks (JBool false) Demo.w0 =
    (inr (),
     World (<["x/Makefile" := Demo.strip_blanks "all:"]> (files Demo.w0))
       (trace Demo.w0 ++
        [ERead "x/Makefile"; EPrint (Line "x/Makefile");
         EPrint (Summary "x/Makefile" (len "all:")
                   (len (Demo.strip_blanks "all:")) pc);
         EWrite "x/Makefile" (Demo.strip_blanks "all:")])).
Proof.
  apply (X10_no_extension_overwrites_source "x/Makefile" "all:"
           Demo.strip_blanks (JBool false) Demo.w0).
  - reflexivity.
  - discriminate.
  - reflexivity.
  - now vm_compute.
Defined.

Lemma X11_witness :
  ∃ tr, trace DemoMain.after_css = trace Demo.w0 ++ tr ∧
    (∀ x c, EWrite x c ∈ tr → minified_name x) ∧
    (∀ y, ¬ minified_name y →
       files DemoMain.after_css !! y = files Demo.w0 !! y) ∧
    (∀ p h st, (p, h, st) ∈ found_of (files Demo.w0) DemoMain.css →
       files DemoMain.after_css !! p = files Demo.w0 !! p).
Proof.
  apply (X11_sources_kept_unless_in_place DemoMain.css Demo.w0
           DemoMain.after_css (inr ())).
  - intros pat st ip [= -> ->]%list_elem_of_singleton Hb.
    vm_compute in Hb. injection Hb as <-. reflexivity.
  - now vm_compute.
Defined.

(** A result nine times the length of its source. *)
Lemma X12_witness : ∃ f, percent 45 5 = inr f.
Proof. apply (X12_percent_never_raises 45 5); [lia | now vm_compute]. Defined.

Lemma X13_witness :
  ∃ k, per_mille 2 3 = inr k ∧ percent 2 3 = tenths k ∧
    0 <= k <= 1000 ∧ (k = 1000 ↔ 2 = 3) ∧ (k = 0 ↔ 1000 * 2 < 3).
Proof. apply (X13_percent_range 2 3); lia. Defined.



End FurtherExamples.
